(** * The admin login screen: [pages/Auth/components/Login.tsx]

    A shallow embedding of the decision logic of the [Login] component:
    the yup schema that gates submission, the mutation that posts the
    credentials, and its [onSuccess] / [onError] handlers.  Rendering is
    left out; the React state, the router history, the redux store, the
    browser storage and the network are fields of one explicit [World]. *)

From Stdlib Require Import String Ascii List Bool Arith Lia.
From stdpp Require Import gmap strings list fin_maps.

Local Open Scope string_scope.
Local Open Scope nat_scope.

(** ** JavaScript built-ins used by the component *)

Module JS.

(** Strings are sequences of bytes; text outside ASCII is held in its
    UTF-8 encoding. *)
Definition code (c : ascii) : nat := nat_of_ascii c.

Definition between (lo hi n : nat) : bool := (lo <=? n) && (n <=? hi).

Definition is_upper (c : ascii) : bool := between 65 90 (code c).
Definition is_lower (c : ascii) : bool := between 97 122 (code c).
Definition is_digit (c : ascii) : bool := between 48 57 (code c).

(** [ToBoolean] on a string: only the empty string is falsy. *)
Definition truthy (s : string) : bool :=
  match s with
  | EmptyString => false
  | String _ _ => true
  end.

(** [ToBoolean] on [string | null | undefined]. *)
Definition truthy_opt (o : option string) : bool :=
  match o with
  | Some s => truthy s
  | None => false
  end.

(** [a ?? b] *)
Definition nullish {A} (a : option A) (b : A) : A :=
  match a with
  | Some x => x
  | None => b
  end.

Definition lower_char (c : ascii) : ascii :=
  if is_upper c then ascii_of_nat (code c + 32) else c.

Definition upper_char (c : ascii) : ascii :=
  if is_lower c then ascii_of_nat (code c - 32) else c.

(** [String.prototype.toLowerCase], on the ASCII letters. *)
Fixpoint toLowerCase (s : string) : string :=
  match s with
  | EmptyString => EmptyString
  | String c r => String (lower_char c) (toLowerCase r)
  end.

(** Exceptions the flow can meet. *)
Inductive Exn : Type :=
| URIError
| StorageError.

Definition hex_digit (c : ascii) : option nat :=
  let n := code c in
  if between 48 57 n then Some (n - 48)
  else if between 65 70 n then Some (n - 55)
  else if between 97 102 n then Some (n - 87)
  else None.

(** Where the decoder stands inside a [%XX] escape. *)
Inductive Escape : Type :=
| Outside
| AfterPercent
| AfterHex (h : nat).

(** What the decoder still expects of a UTF-8 sequence: [more]
    continuation octets, the next one within [lo..hi]. *)
Record Pending : Type := { more : nat; lo : nat; hi : nat }.

Definition no_pending : Pending := {| more := 0; lo := 0; hi := 0 |}.

(** The octet that opens a well-formed UTF-8 sequence fixes how many
    octets follow and the range of the first of them. *)
Definition lead_octet (b : nat) : option Pending :=
  if b <? 128 then Some no_pending
  else if between 194 223 b then Some {| more := 1; lo := 128; hi := 191 |}
  else if b =? 224 then Some {| more := 2; lo := 160; hi := 191 |}
  else if between 225 236 b then Some {| more := 2; lo := 128; hi := 191 |}
  else if b =? 237 then Some {| more := 2; lo := 128; hi := 159 |}
  else if between 238 239 b then Some {| more := 2; lo := 128; hi := 191 |}
  else if b =? 240 then Some {| more := 3; lo := 144; hi := 191 |}
  else if between 241 243 b then Some {| more := 3; lo := 128; hi := 191 |}
  else if b =? 244 then Some {| more := 3; lo := 128; hi := 143 |}
  else None.

Definition octet (p : Pending) (b : nat) : option Pending :=
  match more p with
  | 0 => lead_octet b
  | S k =>
      if between (lo p) (hi p) b
      then Some {| more := k; lo := 128; hi := 191 |}
      else None
  end.

(** The [Decode] loop of ECMAScript with an empty reserved set: plain
    characters are copied, every [%XX] becomes an octet, and the octets
    must spell well-formed UTF-8.  [None] is the [URIError]. *)
Fixpoint decode (e : Escape) (p : Pending) (s : string) : option string :=
  match s with
  | EmptyString =>
      match e, more p with
      | Outside, 0 => Some EmptyString
      | _, _ => None
      end
  | String c r =>
      match e with
      | Outside =>
          if Ascii.eqb c "%" then decode AfterPercent p r
          else
            match more p with
            | 0 => option_map (String c) (decode Outside p r)
            | S _ => None
            end
      | AfterPercent =>
          match hex_digit c with
          | Some h => decode (AfterHex h) p r
          | None => None
          end
      | AfterHex h =>
          match hex_digit c with
          | Some l =>
              let b := 16 * h + l in
              match octet p b with
              | Some p' =>
                  option_map (String (ascii_of_nat b)) (decode Outside p' r)
              | None => None
              end
          | None => None
          end
      end
  end.

Definition decodeURIComponent (s : string) : option string :=
  decode Outside no_pending s.

End JS.

(** ** lodash's [camelCase], on ASCII text

    The model below is lodash's on ASCII text.  On other text lodash
    first strips accents ([deburr]) and splits on Unicode separators and
    typographic apostrophes, none of which is modelled here; neither are
    the case mappings of [toLowerCase] outside ASCII.  A statement that
    depends on what [camelCase] computes on an arbitrary message
    therefore carries the hypothesis that the message is ASCII
    ([ascii_text]); what [onError] does with the result of the test is
    stated for every message, with the two library calls left open
    ([onError_with]). *)

Module Lodash.
Import JS.

(** The classes lodash's word pattern tells apart.  Every ASCII
    character that is no letter and no digit separates words.  A byte
    above 0x7f lies outside the modelled domain; it is kept inside a word
    like a lower-case letter, which is not what lodash does with it. *)
Inductive Class : Type := Upper | Lower | Digit | Break.

Definition classify (c : ascii) : Class :=
  if is_upper c then Upper
  else if is_lower c then Lower
  else if is_digit c then Digit
  else if 128 <=? code c then Lower
  else Break.

(** [string.replace(reApos, '')]: apostrophes are dropped before the
    words are read (the ASCII one here). *)
Fixpoint remove_apostrophes (s : string) : string :=
  match s with
  | EmptyString => EmptyString
  | String c r =>
      if Ascii.eqb c "'" then remove_apostrophes r
      else String c (remove_apostrophes r)
  end.

(** The word being read: nothing, an upper-case run, a run of
    lower-case letters (with its optional capital), a run of digits, or
    the last letter of an ordinal such as [1st]. *)
Inductive Run : Type :=
| NoWord
| Uppers (w : string)
| Lowers (w : string)
| Digits (w : string) (last : ascii)
| OrdinalEnd (w : string).

Definition snoc (w : string) (c : ascii) : string := w ++ String c EmptyString.

Definition close (r : Run) : list string :=
  match r with
  | NoWord => []
  | Uppers w | Lowers w | OrdinalEnd w => [w]
  | Digits w _ => [w]
  end.

Definition start (c : ascii) : Run :=
  match classify c with
  | Upper => Uppers (String c EmptyString)
  | Lower => Lowers (String c EmptyString)
  | Digit => Digits (String c EmptyString) c
  | Break => NoWord
  end.

Definition next_is (k : Class) (s : string) : bool :=
  match s with
  | String c _ =>
      match classify c, k with
      | Upper, Upper | Lower, Lower | Digit, Digit | Break, Break => true
      | _, _ => false
      end
  | EmptyString => false
  end.

(** [1st], [2nd], [3rd], and [th] after any other digit; in one case
    throughout, and followed neither by a digit nor by a letter of the
    same case. *)
Definition ordinal_suffix (d c1 c2 : ascii) : bool :=
  let l1 := lower_char c1 in
  let l2 := lower_char c2 in
  let same_case :=
    (is_lower c1 && is_lower c2) || (is_upper c1 && is_upper c2) in
  same_case &&
  (if Ascii.eqb d "1" then Ascii.eqb l1 "s" && Ascii.eqb l2 "t"
   else if Ascii.eqb d "2" then Ascii.eqb l1 "n" && Ascii.eqb l2 "d"
   else if Ascii.eqb d "3" then Ascii.eqb l1 "r" && Ascii.eqb l2 "d"
   else Ascii.eqb l1 "t" && Ascii.eqb l2 "h").

Definition lower_ahead (s : string) : bool :=
  match s with
  | String c _ => is_lower c
  | EmptyString => false
  end.

Definition upper_ahead (s : string) : bool :=
  match s with
  | String c _ => is_upper c
  | EmptyString => false
  end.

Definition ordinal_ahead (d c1 : ascii) (rest : string) : bool :=
  match rest with
  | String c2 after =>
      ordinal_suffix d c1 c2 &&
      negb (next_is Digit after) &&
      negb (if is_lower c1 then lower_ahead after else upper_ahead after)
  | EmptyString => false
  end.

(** [words]: one pass over the text, closing a word where lodash's
    pattern ends a match.  A capital followed by a lower-case letter
    opens a new word, so [FOOBar] reads [FOO], [Bar]. *)
Fixpoint scan (r : Run) (s : string) : list string :=
  match s with
  | EmptyString => close r
  | String c rest =>
      match r with
      | NoWord => scan (start c) rest
      | Lowers w =>
          match classify c with
          | Lower => scan (Lowers (snoc w c)) rest
          | _ => w :: scan (start c) rest
          end
      | Uppers w =>
          match classify c with
          | Upper =>
              if next_is Lower rest then w :: scan (start c) rest
              else scan (Uppers (snoc w c)) rest
          | Lower => scan (Lowers (snoc w c)) rest
          | _ => w :: scan (start c) rest
          end
      | Digits w d =>
          match classify c with
          | Digit => scan (Digits (snoc w c) c) rest
          | _ =>
              if ordinal_ahead d c rest then scan (OrdinalEnd (snoc w c)) rest
              else w :: scan (start c) rest
          end
      | OrdinalEnd w => snoc w c :: scan NoWord rest
      end
  end.

Definition words (s : string) : list string := scan NoWord s.

(** [capitalize(word)]: [upperFirst(word.toLowerCase())]. *)
Definition capitalize (w : string) : string :=
  match toLowerCase w with
  | EmptyString => EmptyString
  | String c r => String (upper_char c) r
  end.

(** The reducer of [camelCase]:
    [word = word.toLowerCase(); result + (index ? capitalize(word) : word)]. *)
Definition compound (acc : nat * string) (word : string) : nat * string :=
  let (index, result) := acc in
  let word := toLowerCase word in
  (S index, result ++ match index with 0 => word | S _ => capitalize word end).

Definition camelCase (s : string) : string :=
  snd (fold_left compound (words (remove_apostrophes s)) (0, EmptyString)).

End Lodash.

Import JS Lodash.

(** ** Data of the login contract *)

(** [Login.Request['body'] & { rememberMe: boolean }]: the Formik values. *)
Record Values : Type := {
  email : string;
  password : string;
  rememberMe : bool
}.

(** The user of [Login.Response['data']]; the contract lives in
    [shared/contracts/authentication], only the field the component reads
    is kept next to an identity. *)
Record UserRecord : Type := {
  identity : string;
  preferedLanguage : option string
}.

Record LoginData : Type := {
  token : string;
  user : UserRecord
}.

(** What the mutation function returns: [{ ...data, rememberMe: body.rememberMe }]. *)
Record AuthSession : Type := {
  session_token : string;
  session_user : UserRecord;
  session_rememberMe : bool
}.

(** [AxiosError<{ error: Login.Response['errors'] }>]: every level that
    [err.response?.data?.error?.message] guards may be missing. *)
Record ErrorPayload : Type := { message : option string }.
Record ErrorBody : Type := { error : option ErrorPayload }.
Record AxiosResponse : Type := { data : option ErrorBody }.
Record AxiosError : Type := { response : option AxiosResponse }.

(** [translatedErrors.email] and [translatedErrors.required]. *)
Inductive TranslatedError : Type :=
| TE_email
| TE_required.

#[global] Instance TranslatedError_eq_dec : EqDecision TranslatedError.
Proof. solve_decision. Defined.

(** A JSON value of a request body. *)
Inductive JsVal : Type :=
| JString (s : string)
| JBool (b : bool).

Record Request : Type := {
  url : string;
  body : gmap string JsVal
}.

(** Redux actions the component dispatches. *)
Inductive Action : Type :=
| setLocale (lang : string).

(** ** Session storage *)

Module Auth.

Inductive Durability : Type :=
| LongLived
| SessionScoped.

(** What one storage tier holds for this flow. *)
Record Tier : Type := {
  stored_token : option string;
  stored_user : option UserRecord
}.

(** Modelled from the spec: the storage behind [auth] of
    [@strapi/helper-plugin], whose code lies outside this component.
    Two tiers, one long-lived and one scoped to the browsing session.
    A write can fail: [faults] lists, for the writes to come, whether
    each one fails ([true]) or goes through; when the list is used up
    every write goes through. *)
Record Storage : Type := {
  long_lived : Tier;
  session_scoped : Tier;
  faults : list bool
}.

Definition empty_tier : Tier :=
  {| stored_token := None; stored_user := None |}.

Definition tier (d : Durability) (s : Storage) : Tier :=
  match d with
  | LongLived => long_lived s
  | SessionScoped => session_scoped s
  end.

Definition with_tier (d : Durability) (t : Tier) (s : Storage) : Storage :=
  match d with
  | LongLived =>
      {| long_lived := t; session_scoped := session_scoped s; faults := faults s |}
  | SessionScoped =>
      {| long_lived := long_lived s; session_scoped := t; faults := faults s |}
  end.

(** Modelled from the spec: the durability a [rememberMe] flag selects,
    [true] for long-lived storage and [false] for session-scoped
    storage. *)
Definition durability (isLocalStorage : bool) : Durability :=
  if isLocalStorage then LongLived else SessionScoped.

(** Whether the write [n] writes from now fails. *)
Definition fails (n : nat) (s : Storage) : bool :=
  default false (faults s !! n).

(** The next write is attempted: its fault flag is consumed. *)
Definition consume (s : Storage) : Storage :=
  {| long_lived := long_lived s;
     session_scoped := session_scoped s;
     faults := tail (faults s) |}.

Definition put_token (d : Durability) (value : string) (s : Storage) : Storage :=
  with_tier d
    {| stored_token := Some value; stored_user := stored_user (tier d s) |} s.

Definition put_user (d : Durability) (value : UserRecord) (s : Storage) : Storage :=
  with_tier d
    {| stored_token := stored_token (tier d s); stored_user := Some value |} s.

(** Modelled from the spec: [auth.setToken(token, rememberMe)] persists
    the token in the tier its flag selects.  The result is [None] when
    the write fails, and the tiers are then left as they were. *)
Definition setToken (value : string) (isLocalStorage : bool) (s : Storage)
  : option unit * Storage :=
  if fails 0 s then (None, consume s)
  else (Some tt, put_token (durability isLocalStorage) value (consume s)).

(** Modelled from the spec: [auth.setUserInfo(user, rememberMe)]
    persists the user record in the tier its flag selects, next to the
    token. *)
Definition setUserInfo (value : UserRecord) (isLocalStorage : bool) (s : Storage)
  : option unit * Storage :=
  if fails 0 s then (None, consume s)
  else (Some tt, put_user (durability isLocalStorage) value (consume s)).

End Auth.

(** ** The world the component acts on *)

Record World : Type := {
  values : Values;                              (* Formik values *)
  formErrors : gmap string TranslatedError;     (* Formik errors *)
  apiError : option string;                     (* React.useState<string>() *)
  history : list string;                        (* paths pushed, oldest first *)
  dispatched : list Action;                     (* actions sent to the store *)
  storage : Auth.Storage;
  query : list (string * string);               (* useQuery(): URLSearchParams *)
  network : list Request;                       (* requests issued, oldest first *)
  inflight : list Values                        (* mutations awaiting their response *)
}.

Definition set_values (v : Values) (w : World) : World :=
  {| values := v; formErrors := formErrors w; apiError := apiError w;
     history := history w; dispatched := dispatched w; storage := storage w;
     query := query w; network := network w; inflight := inflight w |}.

Definition set_formErrors (e : gmap string TranslatedError) (w : World) : World :=
  {| values := values w; formErrors := e; apiError := apiError w;
     history := history w; dispatched := dispatched w; storage := storage w;
     query := query w; network := network w; inflight := inflight w |}.

Definition set_apiError (e : option string) (w : World) : World :=
  {| values := values w; formErrors := formErrors w; apiError := e;
     history := history w; dispatched := dispatched w; storage := storage w;
     query := query w; network := network w; inflight := inflight w |}.

Definition set_history (h : list string) (w : World) : World :=
  {| values := values w; formErrors := formErrors w; apiError := apiError w;
     history := h; dispatched := dispatched w; storage := storage w;
     query := query w; network := network w; inflight := inflight w |}.

Definition set_dispatched (a : list Action) (w : World) : World :=
  {| values := values w; formErrors := formErrors w; apiError := apiError w;
     history := history w; dispatched := a; storage := storage w;
     query := query w; network := network w; inflight := inflight w |}.

Definition set_storage (s : Auth.Storage) (w : World) : World :=
  {| values := values w; formErrors := formErrors w; apiError := apiError w;
     history := history w; dispatched := dispatched w; storage := s;
     query := query w; network := network w; inflight := inflight w |}.

Definition set_network (n : list Request) (w : World) : World :=
  {| values := values w; formErrors := formErrors w; apiError := apiError w;
     history := history w; dispatched := dispatched w; storage := storage w;
     query := query w; network := n; inflight := inflight w |}.

Definition set_inflight (l : list Values) (w : World) : World :=
  {| values := values w; formErrors := formErrors w; apiError := apiError w;
     history := history w; dispatched := dispatched w; storage := storage w;
     query := query w; network := network w; inflight := l |}.

(** ** Handlers as computations that may throw *)

(** A handler ends normally with a value or throws; either way it leaves
    behind the world it had reached. *)
Inductive Outcome (A : Type) : Type :=
| Return (a : A) (w : World)
| Throw (e : Exn) (w : World).

Arguments Return {A} a w.
Arguments Throw {A} e w.

Definition Handler (A : Type) : Type := World -> Outcome A.

Definition ret {A} (a : A) : Handler A := fun w => Return a w.

Definition throw {A} (e : Exn) : Handler A := fun w => Throw e w.

Definition bind {A B} (c : Handler A) (k : A -> Handler B) : Handler B :=
  fun w =>
    match c w with
    | Return a w' => k a w'
    | Throw e w' => Throw e w'
    end.

Notation "'let!' x ':=' c 'in' k" := (bind c (fun x => k))
  (at level 10, x name, c at level 200, k at level 200).
Notation "'do!' c 'in' k" := (bind c (fun _ => k))
  (at level 10, c at level 200, k at level 200).

Definition effect (f : World -> World) : Handler unit :=
  fun w => Return tt (f w).

Definition world_of {A} (o : Outcome A) : World :=
  match o with
  | Return _ w => w
  | Throw _ w => w
  end.

Definition threw {A} (o : Outcome A) : option Exn :=
  match o with
  | Return _ _ => None
  | Throw e _ => Some e
  end.

(** [push(path)] of [useHistory()]. *)
Definition push (path : string) : Handler unit :=
  effect (fun w => set_history (history w ++ [path]) w).

(** [dispatch(action)] of [useTypedDispatch()]. *)
Definition dispatch (a : Action) : Handler unit :=
  effect (fun w => set_dispatched (dispatched w ++ [a]) w).

(** [setApiError(message)]. *)
Definition setApiError (m : string) : Handler unit :=
  effect (set_apiError (Some m)).

(** A write to the storage: a failed write throws. *)
Definition storage_write (f : Auth.Storage -> option unit * Auth.Storage)
  : Handler unit :=
  fun w =>
    match f (storage w) with
    | (Some _, s) => Return tt (set_storage s w)
    | (None, s) => Throw StorageError (set_storage s w)
    end.

Definition auth_setToken (value : string) (isLocalStorage : bool) : Handler unit :=
  storage_write (Auth.setToken value isLocalStorage).

Definition auth_setUserInfo (value : UserRecord) (isLocalStorage : bool) : Handler unit :=
  storage_write (Auth.setUserInfo value isLocalStorage).

(** [URLSearchParams.prototype.get]: the first value under the name, or
    [null]. *)
Fixpoint query_get (q : list (string * string)) (name : string) : option string :=
  match q with
  | [] => None
  | (k, v) :: rest => if String.eqb k name then Some v else query_get rest name
  end.

(** [decodeURIComponent] as a step of a handler. *)
Definition decode_or_throw (s : string) : Handler string :=
  match decodeURIComponent s with
  | Some d => ret d
  | None => throw URIError
  end.

(** ** The handlers of the mutation *)

(** [const redirectUrl = redirectTo ? decodeURIComponent(redirectTo) : '/'] *)
Definition redirectUrl (redirectTo : option string) : Handler string :=
  match redirectTo with
  | Some r => if truthy r then decode_or_throw r else ret "/"
  | None => ret "/"
  end.

(** [query.get(name)] *)
Definition get_query (name : string) : Handler (option string) :=
  fun w => Return (query_get (query w) name) w.

(** [onSuccess(data)].  [data] is the object the mutation function built,
    so the guard [if (data)] always passes. *)
Definition onSuccess (data : AuthSession) : Handler unit :=
  let token := session_token data in
  let user := session_user data in
  do! match preferedLanguage user with
      | Some lang => if truthy lang then dispatch (setLocale lang) else ret tt
      | None => ret tt
      end in
  do! auth_setToken token (session_rememberMe data) in
  do! auth_setUserInfo user (session_rememberMe data) in
  let! redirectTo := get_query "redirectTo" in
  let! target := redirectUrl redirectTo in
  push target.

(** [err.response?.data?.error?.message] *)
Definition response_message (err : AxiosError) : option string :=
  match response err with
  | Some r =>
      match data r with
      | Some d =>
          match error d with
          | Some e => message e
          | None => None
          end
      | None => None
      end
  | None => None
  end.

Definition fallback_message : string := "Something went wrong".

Definition sentinel : string := "usernotactive".

(** [const message = err.response?.data?.error?.message ?? 'Something went wrong'] *)
Definition error_message (err : AxiosError) : string :=
  nullish (response_message err) fallback_message.

(** [onError(err)], with the two library calls of its test, lodash's
    [camelCase] and the built-in [toLowerCase], left open. *)
Definition onError_with (camelCase toLowerCase : string -> string)
    (err : AxiosError) : Handler unit :=
  let message := error_message err in
  if String.eqb (toLowerCase (camelCase message)) sentinel
  then push "/auth/oops"
  else setApiError message.

(** [onError(err)], the two library calls being the models above. *)
Definition onError (err : AxiosError) : Handler unit :=
  onError_with camelCase toLowerCase err.

(** ** The mutation and the form *)

(** The own properties of the values object, which is the [body] handed
    to [post]. *)
Definition properties (v : Values) : gmap string JsVal :=
  {[ "email" := JString (email v);
     "password" := JString (password v);
     "rememberMe" := JBool (rememberMe v) ]}.

(** [post<Login.Response>('/admin/login', body)] *)
Definition post (path : string) (b : gmap string JsVal) (w : World) : World :=
  set_network (network w ++ [{| url := path; body := b |}]) w.

(** [mutation.mutate(values)]: the mutation function runs up to its
    [await], the request is out and the mutation waits for the response. *)
Definition mutate (v : Values) (w : World) : World :=
  let w' := post "/admin/login" (properties v) w in
  set_inflight (inflight w' ++ [v]) w'.

(** [onSubmit={(values) => { mutation.mutate(values); }}] *)
Definition onSubmit (v : Values) (w : World) : World := mutate v w.

(** The tail of the mutation function once the response is in:
    [return { ...data, rememberMe: body.rememberMe }]. *)
Definition mutation_result (d : LoginData) (b : Values) : AuthSession :=
  {| session_token := token d;
     session_user := user d;
     session_rememberMe := rememberMe b |}.

(** An exception thrown by a handler carries no [response]. *)
Definition error_of_exn (e : Exn) : AxiosError := {| response := None |}.

(** How a request ends. *)
Inductive Settlement : Type :=
| Fulfilled (d : LoginData)
| Rejected (err : AxiosError).

(** react-query runs [onSuccess] on a fulfilled request and [onError] on
    a rejected one; an exception escaping [onSuccess] rejects the
    mutation, and [onError] runs with it.  Only the two handlers of the
    component are run here: what the fetch client does of its own around
    a response (its interceptors) is not part of this step. *)
Definition settle (b : Values) (r : Settlement) (w : World) : World :=
  match r with
  | Fulfilled d =>
      match onSuccess (mutation_result d b) w with
      | Return _ w' => w'
      | Throw e w' => world_of (onError (error_of_exn e) w')
      end
  | Rejected err => world_of (onError err w)
  end.

Section Form.

(** The pattern behind yup's [string().email()]; which pattern it is
    depends on the yup release. *)
Variable email_syntax : string -> bool.

(** [yup.string().email(translatedErrors.email).required(translatedErrors.required)]:
    the empty string fails [required] and is skipped by [email]. *)
Definition check_email (e : string) : option TranslatedError :=
  if negb (truthy e) then Some TE_required
  else if email_syntax e then None
  else Some TE_email.

(** [yup.string().required(translatedErrors.required)] *)
Definition check_password (p : string) : option TranslatedError :=
  if negb (truthy p) then Some TE_required else None.

Definition report (field : string) (e : option TranslatedError)
    (errors : gmap string TranslatedError) : gmap string TranslatedError :=
  match e with
  | Some k => <[field := k]> errors
  | None => errors
  end.

(** The errors of [LOGIN_SCHEMA] on the values, keyed by field as Formik
    keeps them; [rememberMe: yup.bool().nullable()] accepts both
    booleans. *)
Definition LOGIN_SCHEMA (v : Values) : gmap string TranslatedError :=
  report "email" (check_email (email v))
    (report "password" (check_password (password v)) ∅).

(** Formik's submit: the schema is run on the values, and [onSubmit] is
    called only when it reports no error. *)
Definition handleSubmit (w : World) : World :=
  let errors := LOGIN_SCHEMA (values w) in
  let w' := set_formErrors errors w in
  if decide (errors = ∅) then onSubmit (values w) w' else w'.

(** What reaches the component from outside. *)
Inductive Event : Type :=
| ChangeEmail (s : string)
| ChangePassword (s : string)
| ChangeRememberMe (checked : bool)
| Submit
| Settle (i : nat) (r : Settlement).

(** [handleChange] on each of the three inputs. *)
Definition handleChange (ev : Event) (v : Values) : Values :=
  match ev with
  | ChangeEmail s =>
      {| email := s; password := password v; rememberMe := rememberMe v |}
  | ChangePassword s =>
      {| email := email v; password := s; rememberMe := rememberMe v |}
  | ChangeRememberMe b =>
      {| email := email v; password := password v; rememberMe := b |}
  | _ => v
  end.

Definition step (w : World) (ev : Event) : World :=
  match ev with
  | Submit => handleSubmit w
  | Settle i r =>
      match inflight w !! i with
      | Some b => settle b r (set_inflight (delete i (inflight w)) w)
      | None => w
      end
  | _ => set_values (handleChange ev (values w)) w
  end.

Definition run (w : World) (evs : list Event) : World :=
  fold_left step evs w.

End Form.

(** A stand-in for the email pattern, for running the form on examples:
    something, an at sign, something. *)
Fixpoint has_at_sign (s : string) : bool :=
  match s with
  | EmptyString => false
  | String c r => if Ascii.eqb c "@" then truthy r else has_at_sign r
  end.

Definition sample_email_syntax (s : string) : bool :=
  match s with
  | EmptyString => false
  | String c r => negb (Ascii.eqb c "@") && has_at_sign r
  end.

(** [initialValues] of the form. *)
Definition initialValues : Values :=
  {| email := ""; password := ""; rememberMe := false |}.

Definition empty_storage : Auth.Storage :=
  {| Auth.long_lived := Auth.empty_tier;
     Auth.session_scoped := Auth.empty_tier;
     Auth.faults := [] |}.

(** The component as it mounts, under a query string and a storage. *)
Definition mount (q : list (string * string)) (s : Auth.Storage) : World :=
  {| values := initialValues; formErrors := ∅; apiError := None;
     history := []; dispatched := []; storage := s; query := q;
     network := []; inflight := [] |}.

(** ** What [onSuccess] leaves behind, for the statements below *)

(** The actions the locale branch of [onSuccess] sends. *)
Definition locale_actions (u : UserRecord) : list Action :=
  match preferedLanguage u with
  | Some lang => if truthy lang then [setLocale lang] else []
  | None => []
  end.

Definition announced (d : AuthSession) (w : World) : World :=
  set_dispatched (dispatched w ++ locale_actions (session_user d)) w.

(** The storage once the token write went through. *)
Definition token_written (d : AuthSession) (s : Auth.Storage) : Auth.Storage :=
  Auth.put_token (Auth.durability (session_rememberMe d)) (session_token d)
    (Auth.consume s).

(** The storage once both writes went through. *)
Definition both_written (d : AuthSession) (s : Auth.Storage) : Auth.Storage :=
  Auth.put_user (Auth.durability (session_rememberMe d)) (session_user d)
    (Auth.consume (token_written d s)).

(** The world once the locale branch and both writes went through. *)
Definition established (d : AuthSession) (w : World) : World :=
  set_storage (both_written d (storage w)) (announced d w).

(** ** Sample data *)

Definition with_message (m : string) : AxiosError :=
  {| response := Some {| data := Some {| error := Some {| message := Some m |} |} |} |}.

Definition inactive_error : AxiosError := with_message "UserNotActive".

Definition credentials_error : AxiosError := with_message "Invalid credentials".

Definition transport_error : AxiosError := {| response := None |}.

Definition kai : Values :=
  {| email := "kai@doe.com"; password := "secret"; rememberMe := true |}.

Definition kai_fr : LoginData :=
  {| token := "jwt";
     user := {| identity := "kai"; preferedLanguage := Some "fr" |} |}.

Definition kai_unset : LoginData :=
  {| token := "jwt";
     user := {| identity := "kai"; preferedLanguage := Some "" |} |}.

(** A storage whose second write to come fails. *)
Definition second_write_fails : Auth.Storage :=
  {| Auth.long_lived := Auth.empty_tier;
     Auth.session_scoped := Auth.empty_tier;
     Auth.faults := [false; true] |}.

(** A storage whose next write fails. *)
Definition first_write_fails : Auth.Storage :=
  {| Auth.long_lived := Auth.empty_tier;
     Auth.session_scoped := Auth.empty_tier;
     Auth.faults := [true] |}.

(** ** Further definitions for the properties of the whole component *)

(** The characters lodash's word pattern keeps: everything but the
    separators. *)
Fixpoint word_characters (s : string) : string :=
  match s with
  | EmptyString => EmptyString
  | String c r =>
      match classify c with
      | Break => word_characters r
      | _ => String c (word_characters r)
      end
  end.

(** The letters read so far of the word a [Run] is in. *)
Definition pending (r : Run) : string :=
  match r with
  | NoWord => EmptyString
  | Uppers w | Lowers w | OrdinalEnd w => w
  | Digits w _ => w
  end.

Definition concat_words (ws : list string) : string :=
  fold_right append EmptyString ws.

(** An ordinal's last letter is still to be read only when it is there. *)
Definition ready (r : Run) (s : string) : Prop :=
  match r, s with
  | OrdinalEnd _, String c _ => classify c <> Break
  | _, _ => True
  end.

(** Whether a text has a percent sign, the one character
    [decodeURIComponent] does not copy. *)
Fixpoint has_percent (s : string) : bool :=
  match s with
  | EmptyString => false
  | String c r => Ascii.eqb c "%" || has_percent r
  end.

(** [mutation.isError && apiError ? <Typography role="alert">{apiError}</Typography> : null]:
    the text of the alert, if one is rendered. *)
Definition global_form_error (isError : bool) (w : World) : option string :=
  if isError && truthy_opt (apiError w) then apiError w else None.

(** The events that come from the three inputs. *)
Definition is_change (ev : Event) : bool :=
  match ev with
  | ChangeEmail _ | ChangePassword _ | ChangeRememberMe _ => true
  | _ => false
  end.

(** Whether a text is ASCII, the domain on which [camelCase] and
    [toLowerCase] are modelled. *)
Fixpoint ascii_text (s : string) : bool :=
  match s with
  | EmptyString => true
  | String c r => (code c <? 128) && ascii_text r
  end.

(** The value an event gives to a field, if it edits that field. *)
Definition email_edit (ev : Event) : option string :=
  match ev with
  | ChangeEmail s => Some s
  | _ => None
  end.

Definition password_edit (ev : Event) : option string :=
  match ev with
  | ChangePassword s => Some s
  | _ => None
  end.

Definition rememberMe_edit (ev : Event) : option bool :=
  match ev with
  | ChangeRememberMe checked => Some checked
  | _ => None
  end.

Definition is_submit (ev : Event) : bool :=
  match ev with
  | Submit => true
  | _ => false
  end.

(** How many submit events a run has. *)
Definition submits (evs : list Event) : nat :=
  length (List.filter is_submit evs).

(** [const [passwordShown, setPasswordShown] = React.useState(false)] *)
Definition passwordShown_initial : bool := false.

(** [setPasswordShown((prev) => !prev)], the click on the field action. *)
Definition toggle_passwordShown (prev : bool) : bool := negb prev.

(** [type={passwordShown ? 'text' : 'password'}] *)
Definition password_type (passwordShown : bool) : string :=
  if passwordShown then "text" else "password".

(** The message id of the field action's label. *)
Definition password_action_label (passwordShown : bool) : string :=
  if passwordShown then "Auth.form.password.show-password"
  else "Auth.form.password.hide-password".

Inductive Icon : Type := Eye | EyeStriked.

(** [{passwordShown ? <Eye /> : <EyeStriked />}] *)
Definition password_action_icon (passwordShown : bool) : Icon :=
  if passwordShown then Eye else EyeStriked.

(** The state after [n] clicks on the field action. *)
Definition clicks (n : nat) : bool :=
  Nat.iter n toggle_passwordShown passwordShown_initial.

Definition spaced_inactive_error : AxiosError := with_message "User not-active!".
Definition empty_message_error : AxiosError := with_message "".

(** * Properties *)

Local Open Scope list_scope.

(** ** The built-ins on the texts the component meets *)

Example camelCase_UserNotActive :
  map (fun m => toLowerCase (camelCase m))
      ["UserNotActive"; "user not active"; "User_Not-Active"; "USER NOT ACTIVE"]
  = [sentinel; sentinel; sentinel; sentinel].
Proof. reflexivity. Qed.

Example camelCase_words :
  map camelCase ["Something went wrong"; "Invalid credentials"; "FOOBar 21st x"]
  = ["somethingWentWrong"; "invalidCredentials"; "fooBar21stX"].
Proof. reflexivity. Qed.

Example decodeURIComponent_samples :
  map decodeURIComponent ["%2Fsettings"; "/"; "a%20b"; "%"; "%2"; "%zz"; "%C0%80"]
  = [Some "/settings"; Some "/"; Some "a b"; None; None; None; None].
Proof. reflexivity. Qed.

(** ** [onError] *)

Lemma onError_returns err w : threw (onError err w) = None.
Proof. unfold onError, onError_with. by destruct (String.eqb _ _). Qed.

Lemma onError_inactive err w :
  toLowerCase (camelCase (error_message err)) = sentinel ->
  world_of (onError err w) = set_history (history w ++ ["/auth/oops"]) w.
Proof.
  intros H. unfold onError, onError_with. rewrite H. reflexivity.
Qed.

Lemma onError_generic err w :
  toLowerCase (camelCase (error_message err)) <> sentinel ->
  world_of (onError err w) = set_apiError (Some (error_message err)) w.
Proof.
  intros H. unfold onError, onError_with.
  destruct (String.eqb_spec (toLowerCase (camelCase (error_message err))) sentinel);
    [contradiction | reflexivity].
Qed.

Lemma fallback_is_generic : toLowerCase (camelCase fallback_message) <> sentinel.
Proof. discriminate. Qed.

Lemma onError_exn e w :
  world_of (onError (error_of_exn e) w) = set_apiError (Some fallback_message) w.
Proof. reflexivity. Qed.

(** C1. When a submission fails, the message is camel-cased and
    lower-cased; if the result is the sentinel the handler pushes the
    account-inactive path and leaves the error string as it was, and for
    every other message the error string becomes the message itself and
    nothing is pushed.  This holds for every message, whatever lodash's
    [camelCase] and the built-in [toLowerCase] compute on it: the two
    only feed the test. *)
Theorem C1_error_classification
    (camel lower : string -> string) (err : AxiosError) (w : World) :
  let msg := error_message err in
  let w' := world_of (onError_with camel lower err w) in
  (lower (camel msg) = sentinel ->
     history w' = history w ++ ["/auth/oops"] /\ apiError w' = apiError w)
  /\ (lower (camel msg) <> sentinel ->
     apiError w' = Some msg /\ history w' = history w).
Proof.
  cbn zeta. unfold onError_with.
  destruct (String.eqb_spec (lower (camel (error_message err))) sentinel) as [He | Hne].
  - split; intros H; [split; reflexivity | contradiction].
  - split; intros H; [contradiction | split; reflexivity].
Qed.

Lemma C1_error_classification_witness :
  let w := mount [] empty_storage in
  (history (world_of (onError inactive_error w)) = ["/auth/oops"]
   /\ apiError (world_of (onError inactive_error w)) = None)
  /\ (history (world_of (onError spaced_inactive_error w)) = ["/auth/oops"]
      /\ apiError (world_of (onError spaced_inactive_error w)) = None)
  /\ (apiError (world_of (onError credentials_error w)) = Some "Invalid credentials"
      /\ history (world_of (onError credentials_error w)) = []).
Proof.
  cbn zeta. split; [| split].
  - apply (C1_error_classification camelCase toLowerCase inactive_error
             (mount [] empty_storage)).
    reflexivity.
  - apply (C1_error_classification camelCase toLowerCase spaced_inactive_error
             (mount [] empty_storage)).
    reflexivity.
  - apply (C1_error_classification camelCase toLowerCase credentials_error
             (mount [] empty_storage)).
    discriminate.
Defined.

(** C8. When the failed response carries no message, whichever level of
    it is missing, the message the classifier works on is the fallback
    ["Something went wrong"], which becomes the error string; nothing is
    pushed. *)
Theorem C8_fallback_message (b : Values) (err : AxiosError) (w : World) :
  response_message err = None ->
  error_message err = "Something went wrong"
  /\ apiError (settle b (Rejected err) w) = Some "Something went wrong"
  /\ history (settle b (Rejected err) w) = history w.
Proof.
  intros H.
  assert (Hm : error_message err = fallback_message).
  { unfold error_message. rewrite H. reflexivity. }
  split; [exact Hm |].
  unfold settle. rewrite onError_generic.
  - rewrite Hm. split; reflexivity.
  - rewrite Hm. exact fallback_is_generic.
Qed.

Lemma C8_fallback_message_witness :
  error_message transport_error = "Something went wrong"
  /\ apiError (settle initialValues (Rejected transport_error)
                 (mount [] empty_storage)) = Some "Something went wrong"
  /\ history (settle initialValues (Rejected transport_error)
                (mount [] empty_storage)) = [].
Proof.
  apply (C8_fallback_message initialValues transport_error
           (mount [] empty_storage)).
  reflexivity.
Defined.

(** ** The storage *)

Lemma fails_consume n s : Auth.fails n (Auth.consume s) = Auth.fails (S n) s.
Proof. destruct s as [ll ss [|f fs]]; reflexivity. Qed.

Lemma fails_with_tier n d t s : Auth.fails n (Auth.with_tier d t s) = Auth.fails n s.
Proof. destruct d; reflexivity. Qed.

Lemma tier_with_tier d t s : Auth.tier d (Auth.with_tier d t s) = t.
Proof. destruct d; reflexivity. Qed.

Lemma tier_with_other d d' t s :
  d <> d' -> Auth.tier d' (Auth.with_tier d t s) = Auth.tier d' s.
Proof. destruct d, d'; intros H; try reflexivity; contradiction. Qed.

Lemma tier_consume d s : Auth.tier d (Auth.consume s) = Auth.tier d s.
Proof. destruct d; reflexivity. Qed.

(** ** Steps of [onSuccess] *)

Lemma bind_return {A B} (c : Handler A) (k : A -> Handler B) w a w' :
  c w = Return a w' -> bind c k w = k a w'.
Proof. unfold bind. intros ->. reflexivity. Qed.

Lemma bind_throw {A B} (c : Handler A) (k : A -> Handler B) w e w' :
  c w = Throw e w' -> bind c k w = Throw e w'.
Proof. unfold bind. intros ->. reflexivity. Qed.

Lemma auth_setToken_ok v r w :
  Auth.fails 0 (storage w) = false ->
  auth_setToken v r w
  = Return tt (set_storage
                 (Auth.put_token (Auth.durability r) v (Auth.consume (storage w))) w).
Proof.
  intros H. unfold auth_setToken, storage_write, Auth.setToken. rewrite H. reflexivity.
Qed.

Lemma auth_setToken_fails v r w :
  Auth.fails 0 (storage w) = true ->
  auth_setToken v r w = Throw StorageError (set_storage (Auth.consume (storage w)) w).
Proof.
  intros H. unfold auth_setToken, storage_write, Auth.setToken. rewrite H. reflexivity.
Qed.

Lemma auth_setUserInfo_ok v r w :
  Auth.fails 0 (storage w) = false ->
  auth_setUserInfo v r w
  = Return tt (set_storage
                 (Auth.put_user (Auth.durability r) v (Auth.consume (storage w))) w).
Proof.
  intros H. unfold auth_setUserInfo, storage_write, Auth.setUserInfo. rewrite H. reflexivity.
Qed.

Lemma auth_setUserInfo_fails v r w :
  Auth.fails 0 (storage w) = true ->
  auth_setUserInfo v r w = Throw StorageError (set_storage (Auth.consume (storage w)) w).
Proof.
  intros H. unfold auth_setUserInfo, storage_write, Auth.setUserInfo. rewrite H. reflexivity.
Qed.

Lemma set_dispatched_nil w : set_dispatched (dispatched w ++ []) w = w.
Proof. destruct w; unfold set_dispatched; simpl. rewrite app_nil_r. reflexivity. Qed.

Lemma locale_branch d w :
  match preferedLanguage (session_user d) with
  | Some lang => if truthy lang then dispatch (setLocale lang) else ret tt
  | None => ret tt
  end w = Return tt (announced d w).
Proof.
  unfold announced, locale_actions.
  destruct (preferedLanguage (session_user d)) as [lang|].
  - destruct (truthy lang); [reflexivity |].
    unfold ret. by rewrite set_dispatched_nil.
  - unfold ret. by rewrite set_dispatched_nil.
Qed.

Lemma onSuccess_persisted d w :
  Auth.fails 0 (storage w) = false ->
  Auth.fails 1 (storage w) = false ->
  onSuccess d w
  = (let! target := redirectUrl (query_get (query w) "redirectTo") in push target)
      (established d w).
Proof.
  intros H0 H1. unfold onSuccess.
  rewrite (bind_return _ _ _ _ _ (locale_branch d w)).
  rewrite (bind_return _ _ _ _ _ (auth_setToken_ok _ _ (announced d w) H0)).
  assert (H1' : Auth.fails 0
            (storage (set_storage (token_written d (storage w)) (announced d w)))
          = false).
  { cbn [storage set_storage]. unfold token_written, Auth.put_token.
    rewrite fails_with_tier, fails_consume. exact H1. }
  rewrite (bind_return _ _ _ _ _ (auth_setUserInfo_ok _ _ _ H1')). reflexivity.
Qed.

Lemma onSuccess_token_fails d w :
  Auth.fails 0 (storage w) = true ->
  onSuccess d w
  = Throw StorageError (set_storage (Auth.consume (storage w)) (announced d w)).
Proof.
  intros H0. unfold onSuccess.
  rewrite (bind_return _ _ _ _ _ (locale_branch d w)).
  rewrite (bind_throw _ _ _ _ _ (auth_setToken_fails _ _ (announced d w) H0)). reflexivity.
Qed.

Lemma onSuccess_user_fails d w :
  Auth.fails 0 (storage w) = false ->
  Auth.fails 1 (storage w) = true ->
  onSuccess d w
  = Throw StorageError
      (set_storage (Auth.consume (token_written d (storage w))) (announced d w)).
Proof.
  intros H0 H1. unfold onSuccess.
  rewrite (bind_return _ _ _ _ _ (locale_branch d w)).
  rewrite (bind_return _ _ _ _ _ (auth_setToken_ok _ _ (announced d w) H0)).
  assert (H1' : Auth.fails 0
            (storage (set_storage (token_written d (storage w)) (announced d w)))
          = true).
  { cbn [storage set_storage]. unfold token_written, Auth.put_token.
    rewrite fails_with_tier, fails_consume. exact H1. }
  rewrite (bind_throw _ _ _ _ _ (auth_setUserInfo_fails _ _ _ H1')). reflexivity.
Qed.

(** The last lines of [onSuccess]: resolve the target and push it. *)
Lemma navigate_default q w :
  query_get q "redirectTo" = None \/ query_get q "redirectTo" = Some "" ->
  (let! target := redirectUrl (query_get q "redirectTo") in push target) w
  = Return tt (set_history (history w ++ ["/"]) w).
Proof. intros [-> | ->]; reflexivity. Qed.

Lemma navigate_decoded q w r p :
  query_get q "redirectTo" = Some r -> r <> "" ->
  decodeURIComponent r = Some p ->
  (let! target := redirectUrl (query_get q "redirectTo") in push target) w
  = Return tt (set_history (history w ++ [p]) w).
Proof.
  intros -> Hr Hp. unfold redirectUrl, decode_or_throw, bind.
  destruct r as [|c r]; [contradiction |]. cbn [truthy]. rewrite Hp. reflexivity.
Qed.

Lemma navigate_malformed q w r :
  query_get q "redirectTo" = Some r -> r <> "" ->
  decodeURIComponent r = None ->
  (let! target := redirectUrl (query_get q "redirectTo") in push target) w
  = Throw URIError w.
Proof.
  intros -> Hr Hp. unfold redirectUrl, decode_or_throw, bind.
  destruct r as [|c r]; [contradiction |]. cbn [truthy]. rewrite Hp. reflexivity.
Qed.

(** Whatever the writes and the redirect do, the handler either ends or
    throws in a world that differs from a known one in its history only. *)
Lemma navigate_frame q w :
  let o := (let! target := redirectUrl (query_get q "redirectTo") in push target) w in
  storage (world_of o) = storage w
  /\ dispatched (world_of o) = dispatched w
  /\ apiError (world_of o) = apiError w.
Proof.
  cbn zeta. unfold redirectUrl, decode_or_throw, bind.
  destruct (query_get q "redirectTo") as [r|]; [| repeat split].
  destruct (truthy r); [| repeat split].
  destruct (decodeURIComponent r); repeat split.
Qed.

Lemma onSuccess_dispatched d w :
  dispatched (world_of (onSuccess d w))
  = dispatched w ++ locale_actions (session_user d).
Proof.
  destruct (Auth.fails 0 (storage w)) eqn:H0.
  - rewrite onSuccess_token_fails by exact H0. reflexivity.
  - destruct (Auth.fails 1 (storage w)) eqn:H1.
    + rewrite onSuccess_user_fails by assumption. reflexivity.
    + rewrite onSuccess_persisted by assumption.
      destruct (navigate_frame (query w) (established d w)) as (_ & Hd & _).
      cbn zeta in Hd. rewrite Hd. reflexivity.
Qed.

Lemma onSuccess_storage d w :
  Auth.fails 0 (storage w) = false ->
  Auth.fails 1 (storage w) = false ->
  storage (world_of (onSuccess d w)) = both_written d (storage w).
Proof.
  intros H0 H1. rewrite onSuccess_persisted by assumption.
  destruct (navigate_frame (query w) (established d w)) as (Hs & _).
  cbn zeta in Hs. rewrite Hs. reflexivity.
Qed.

(** [settle] on a fulfilled request, with the follow-up of a throwing
    [onSuccess] spelled out. *)
Lemma settle_fulfilled b d w :
  settle b (Fulfilled d) w
  = match onSuccess (mutation_result d b) w with
    | Return _ w' => w'
    | Throw _ w' => set_apiError (Some fallback_message) w'
    end.
Proof.
  unfold settle. destruct (onSuccess (mutation_result d b) w); reflexivity.
Qed.

Lemma settle_fulfilled_frame b d w :
  let w' := world_of (onSuccess (mutation_result d b) w) in
  storage (settle b (Fulfilled d) w) = storage w'
  /\ dispatched (settle b (Fulfilled d) w) = dispatched w'
  /\ history (settle b (Fulfilled d) w) = history w'.
Proof.
  cbn zeta. rewrite settle_fulfilled.
  destruct (onSuccess (mutation_result d b) w); repeat split.
Qed.
(** ** The session *)

Lemma settle_dispatched b d w :
  dispatched (settle b (Fulfilled d) w) = dispatched w ++ locale_actions (user d).
Proof.
  destruct (settle_fulfilled_frame b d w) as (_ & Hd & _). cbn zeta in Hd.
  rewrite Hd. apply onSuccess_dispatched.
Qed.

(** C10. A preferred language that is the empty string sends no locale
    action, exactly as a missing one does: the branch tests the value for
    truthiness. *)
Theorem C10_empty_language_sends_nothing (b : Values) (d : LoginData) (w : World) :
  preferedLanguage (user d) = Some "" \/ preferedLanguage (user d) = None ->
  dispatched (world_of (onSuccess (mutation_result d b) w)) = dispatched w
  /\ dispatched (settle b (Fulfilled d) w) = dispatched w.
Proof.
  intros H.
  assert (Hl : locale_actions (user d) = []).
  { unfold locale_actions. destruct H as [-> | ->]; reflexivity. }
  rewrite settle_dispatched, onSuccess_dispatched. cbn [mutation_result session_user].
  rewrite Hl, app_nil_r. split; reflexivity.
Qed.

Lemma C10_empty_language_sends_nothing_witness :
  dispatched (world_of (onSuccess (mutation_result kai_unset kai)
                          (mount [] empty_storage))) = []
  /\ dispatched (settle kai (Fulfilled kai_unset) (mount [] empty_storage)) = [].
Proof.
  apply (C10_empty_language_sends_nothing kai kai_unset (mount [] empty_storage)).
  left. reflexivity.
Defined.

(** The claim C4 as it is worded fails: the language below is present,
    and no locale action carries it. *)
Lemma C4_present_language_counterexample :
  preferedLanguage (user kai_unset) = Some ""
  /\ ~ In (setLocale "")
         (dispatched (settle kai (Fulfilled kai_unset) (mount [] empty_storage))).
Proof. split; [reflexivity |]. vm_compute. tauto. Qed.

Lemma both_written_tier d s :
  Auth.tier (Auth.durability (session_rememberMe d)) (both_written d s)
  = {| Auth.stored_token := Some (session_token d);
       Auth.stored_user := Some (session_user d) |}.
Proof.
  unfold both_written, token_written, Auth.put_user, Auth.put_token.
  rewrite tier_with_tier, tier_consume, tier_with_tier. reflexivity.
Qed.

Lemma both_written_other d s k :
  Auth.durability (session_rememberMe d) <> k ->
  Auth.tier k (both_written d s) = Auth.tier k s.
Proof.
  intros H. unfold both_written, token_written, Auth.put_user, Auth.put_token.
  rewrite tier_with_other, tier_consume, tier_with_other, tier_consume by exact H.
  reflexivity.
Qed.

(** C4, amended. When neither write fails: a preferred language that is
    present and not empty is sent as one locale action, and the token and
    the user are both kept in the tier the submitted [rememberMe] selects,
    long-lived storage for [true] and session-scoped storage for [false];
    the other tier is left as it was. *)
Theorem C4_session_established (b : Values) (d : LoginData) (w : World) :
  Auth.fails 0 (storage w) = false ->
  Auth.fails 1 (storage w) = false ->
  let w' := settle b (Fulfilled d) w in
  let kept := {| Auth.stored_token := Some (token d);
                 Auth.stored_user := Some (user d) |} in
  (forall lang, preferedLanguage (user d) = Some lang -> lang <> "" ->
     dispatched w' = dispatched w ++ [setLocale lang])
  /\ (rememberMe b = true ->
        Auth.long_lived (storage w') = kept
        /\ Auth.session_scoped (storage w') = Auth.session_scoped (storage w))
  /\ (rememberMe b = false ->
        Auth.session_scoped (storage w') = kept
        /\ Auth.long_lived (storage w') = Auth.long_lived (storage w)).
Proof.
  intros H0 H1. cbn zeta.
  destruct (settle_fulfilled_frame b d w) as (Hs & _). cbn zeta in Hs.
  rewrite Hs, onSuccess_storage by assumption.
  pose proof (both_written_tier (mutation_result d b) (storage w)) as Hk.
  cbn [mutation_result session_rememberMe session_token session_user] in Hk.
  split; [| split].
  - intros lang Hl Hne. rewrite settle_dispatched. unfold locale_actions.
    rewrite Hl. destruct lang; [contradiction | reflexivity].
  - intros Hr. rewrite Hr in Hk. split; [exact Hk |].
    apply (both_written_other (mutation_result d b) (storage w) Auth.SessionScoped).
    cbn [mutation_result session_rememberMe]. rewrite Hr. discriminate.
  - intros Hr. rewrite Hr in Hk. split; [exact Hk |].
    apply (both_written_other (mutation_result d b) (storage w) Auth.LongLived).
    cbn [mutation_result session_rememberMe]. rewrite Hr. discriminate.
Qed.

Lemma C4_session_established_witness :
  let w' := settle kai (Fulfilled kai_fr) (mount [] empty_storage) in
  dispatched w' = [setLocale "fr"]
  /\ Auth.long_lived (storage w')
     = {| Auth.stored_token := Some "jwt"; Auth.stored_user := Some (user kai_fr) |}
  /\ Auth.session_scoped (storage w') = Auth.empty_tier.
Proof.
  cbn zeta.
  destruct (C4_session_established kai kai_fr (mount [] empty_storage)
              eq_refl eq_refl) as (Hl & Ht & _).
  split.
  - apply (Hl "fr"); [reflexivity | discriminate].
  - apply Ht. reflexivity.
Defined.
(** ** The redirect *)

Lemma settle_history b d w :
  history (settle b (Fulfilled d) w)
  = history (world_of (onSuccess (mutation_result d b) w)).
Proof. by destruct (settle_fulfilled_frame b d w) as (_ & _ & Hh). Qed.

(** C5. After a login whose session was stored, the path pushed is the
    decoded value of [redirectTo] when the query has one that is not
    empty, and ["/"] when the query has none or an empty one. *)
Theorem C5_redirect_target (b : Values) (d : LoginData) (w : World) :
  Auth.fails 0 (storage w) = false ->
  Auth.fails 1 (storage w) = false ->
  let w' := settle b (Fulfilled d) w in
  (forall r p, query_get (query w) "redirectTo" = Some r -> r <> "" ->
     decodeURIComponent r = Some p ->
     history w' = history w ++ [p])
  /\ (query_get (query w) "redirectTo" = None
      \/ query_get (query w) "redirectTo" = Some "" ->
      history w' = history w ++ ["/"]).
Proof.
  intros H0 H1. cbn zeta. rewrite settle_history, onSuccess_persisted by assumption.
  split.
  - intros r p Hq Hr Hp. rewrite (navigate_decoded _ _ r p) by assumption. reflexivity.
  - intros Hq. rewrite navigate_default by exact Hq. reflexivity.
Qed.

Lemma C5_redirect_target_witness :
  history (settle kai (Fulfilled kai_fr)
             (mount [("redirectTo", "%2Fsettings")] empty_storage)) = ["/settings"]
  /\ history (settle kai (Fulfilled kai_fr) (mount [] empty_storage)) = ["/"].
Proof.
  split.
  - apply (C5_redirect_target kai kai_fr
             (mount [("redirectTo", "%2Fsettings")] empty_storage) eq_refl eq_refl)
      with (r := "%2Fsettings"); [reflexivity | discriminate | reflexivity].
  - apply (C5_redirect_target kai kai_fr (mount [] empty_storage) eq_refl eq_refl).
    left. reflexivity.
Defined.

(** C9. A [redirectTo] that is not well-formed percent-encoding makes
    [onSuccess] throw a [URIError] where the target is resolved: nothing
    is pushed, not even the root path, although the session is stored by
    then. *)
Theorem C9_malformed_redirect_throws (b : Values) (d : LoginData) (w : World) (r : string) :
  Auth.fails 0 (storage w) = false ->
  Auth.fails 1 (storage w) = false ->
  query_get (query w) "redirectTo" = Some r ->
  r <> "" ->
  decodeURIComponent r = None ->
  threw (onSuccess (mutation_result d b) w) = Some URIError
  /\ history (world_of (onSuccess (mutation_result d b) w)) = history w
  /\ history (settle b (Fulfilled d) w) = history w.
Proof.
  intros H0 H1 Hq Hr Hp. rewrite settle_history, onSuccess_persisted by assumption.
  rewrite (navigate_malformed _ _ r) by assumption. repeat split.
Qed.

Lemma C9_malformed_redirect_throws_witness :
  let w := mount [("redirectTo", "%")] empty_storage in
  decodeURIComponent "%" = None
  /\ threw (onSuccess (mutation_result kai_fr kai) w) = Some URIError
  /\ history (world_of (onSuccess (mutation_result kai_fr kai) w)) = []
  /\ history (settle kai (Fulfilled kai_fr) w) = [].
Proof.
  cbn zeta. split; [reflexivity |].
  apply (C9_malformed_redirect_throws kai kai_fr
           (mount [("redirectTo", "%")] empty_storage) "%");
    [reflexivity | reflexivity | reflexivity | discriminate | reflexivity].
Defined.

(** ** The two writes *)

(** The claim C7 as it is worded fails: when the second write fails the
    token stays in the storage and no user record is next to it. *)
Lemma C7_token_without_user_counterexample :
  let w' := settle kai (Fulfilled kai_fr) (mount [] second_write_fails) in
  Auth.stored_token (Auth.long_lived (storage w')) = Some "jwt"
  /\ Auth.stored_user (Auth.long_lived (storage w')) = None.
Proof. split; reflexivity. Qed.

Lemma settle_storage b d w :
  storage (settle b (Fulfilled d) w)
  = storage (world_of (onSuccess (mutation_result d b) w)).
Proof. by destruct (settle_fulfilled_frame b d w) as (Hs & _). Qed.

(** C7, amended. The two writes follow each other with no rollback.  In
    the tier the flag selects: when neither write fails both the token and
    the user are stored; when the token write fails the tier is left as it
    was; when the token write goes through and the user write fails, the
    token is stored and the user record is left as it was. *)
Theorem C7_writes_without_rollback (b : Values) (d : LoginData) (w : World) :
  let k := Auth.durability (rememberMe b) in
  let before := Auth.tier k (storage w) in
  let after := Auth.tier k (storage (settle b (Fulfilled d) w)) in
  (Auth.fails 0 (storage w) = false -> Auth.fails 1 (storage w) = false ->
     after = {| Auth.stored_token := Some (token d);
                Auth.stored_user := Some (user d) |})
  /\ (Auth.fails 0 (storage w) = true -> after = before)
  /\ (Auth.fails 0 (storage w) = false -> Auth.fails 1 (storage w) = true ->
        after = {| Auth.stored_token := Some (token d);
                   Auth.stored_user := Auth.stored_user before |}).
Proof.
  cbn zeta. rewrite settle_storage. split; [| split].
  - intros H0 H1. rewrite onSuccess_storage by assumption.
    apply (both_written_tier (mutation_result d b)).
  - intros H0. rewrite onSuccess_token_fails by exact H0.
    cbn [world_of storage set_storage]. apply tier_consume.
  - intros H0 H1. rewrite onSuccess_user_fails by assumption.
    cbn [world_of storage set_storage].
    unfold token_written, Auth.put_token.
    rewrite tier_consume, tier_with_tier, tier_consume. reflexivity.
Qed.

Lemma C7_writes_without_rollback_witness :
  Auth.tier Auth.LongLived
    (storage (settle kai (Fulfilled kai_fr) (mount [] second_write_fails)))
  = {| Auth.stored_token := Some "jwt"; Auth.stored_user := None |}
  /\ Auth.tier Auth.LongLived
       (storage (settle kai (Fulfilled kai_fr) (mount [] empty_storage)))
     = {| Auth.stored_token := Some "jwt"; Auth.stored_user := Some (user kai_fr) |}
  /\ Auth.tier Auth.LongLived
       (storage (settle kai (Fulfilled kai_fr) (mount [] first_write_fails)))
     = Auth.empty_tier.
Proof.
  split; [| split].
  - apply (C7_writes_without_rollback kai kai_fr (mount [] second_write_fails));
      reflexivity.
  - apply (C7_writes_without_rollback kai kai_fr (mount [] empty_storage));
      reflexivity.
  - apply (C7_writes_without_rollback kai kai_fr (mount [] first_write_fails));
      reflexivity.
Defined.

(** ** The form *)

Lemma truthy_true s : truthy s = true <-> s <> "".
Proof. destruct s; simpl; split; congruence. Qed.

Section FormFacts.

Variable email_syntax : string -> bool.

Abbreviation schema := (LOGIN_SCHEMA email_syntax).
Abbreviation submit := (handleSubmit email_syntax).

Lemma check_email_none e :
  check_email email_syntax e = None <-> e <> "" /\ email_syntax e = true.
Proof.
  unfold check_email. destruct e as [|c e]; simpl.
  - split; [discriminate | intros [H _]; contradiction].
  - destruct (email_syntax (String c e)); split; try discriminate; auto.
    intros [_ H]. discriminate.
Qed.

Lemma check_password_none p : check_password p = None <-> p <> "".
Proof. unfold check_password. destruct p; simpl; split; congruence. Qed.

Lemma report_empty f e (m : gmap string TranslatedError) :
  report f e m = ∅ <-> e = None /\ m = ∅.
Proof.
  destruct e as [k|]; simpl.
  - split; [| intros [H _]; discriminate].
    intros H. exfalso. by apply (insert_non_empty m f k).
  - split; [auto | by intros [_ H]].
Qed.

Lemma schema_empty v :
  schema v = ∅ <-> email v <> "" /\ email_syntax (email v) = true /\ password v <> "".
Proof.
  unfold LOGIN_SCHEMA. rewrite !report_empty, check_email_none, check_password_none.
  tauto.
Qed.

Lemma schema_email v :
  schema v !! "email" = check_email email_syntax (email v).
Proof.
  unfold LOGIN_SCHEMA.
  destruct (check_email email_syntax (email v)) as [k|]; simpl.
  - apply lookup_insert_eq.
  - destruct (check_password (password v)); simpl;
      [by rewrite lookup_insert_ne | apply lookup_empty].
Qed.

Lemma submit_valid w :
  schema (values w) = ∅ ->
  submit w = onSubmit (values w) (set_formErrors ∅ w).
Proof.
  intros H. unfold handleSubmit. rewrite H. by rewrite decide_True.
Qed.

Lemma submit_invalid w :
  schema (values w) <> ∅ ->
  submit w = set_formErrors (schema (values w)) w.
Proof.
  intros H. unfold handleSubmit. by rewrite decide_False.
Qed.

(** C6. The schema reports no error exactly when the email is not empty
    and has the email syntax and the password is not empty, whatever
    [rememberMe] is (the form starts it at [false]).  An email without
    the syntax is reported under the key [email], and submitting such a
    draft posts nothing. *)
Theorem C6_validation_gates_submission (v : Values) :
  (schema v = ∅ <->
     email v <> "" /\ email_syntax (email v) = true /\ password v <> "")
  /\ schema v !! "rememberMe" = None
  /\ rememberMe initialValues = false
  /\ (email_syntax (email v) = false ->
        is_Some (schema v !! "email")
        /\ (email v <> "" -> schema v !! "email" = Some TE_email)
        /\ forall w, values w = v ->
             network (step email_syntax w Submit) = network w
             /\ inflight (step email_syntax w Submit) = inflight w).
Proof.
  split; [apply schema_empty |]. split; [| split; [reflexivity |]].
  - unfold LOGIN_SCHEMA.
    destruct (check_email email_syntax (email v)),
      (check_password (password v)); simpl;
      by rewrite ?lookup_insert_ne, ?lookup_empty.
  - intros Hbad.
    assert (He : schema v !! "email"
                 = Some (if truthy (email v) then TE_email else TE_required)).
    { rewrite schema_email. unfold check_email. rewrite Hbad.
      by destruct (truthy (email v)). }
    split; [rewrite He; eauto |]. split.
    + intros Hne. rewrite He. apply truthy_true in Hne. by rewrite Hne.
    + intros w Hw. cbn [step]. rewrite submit_invalid; [split; reflexivity |].
      rewrite Hw. intros Hs. rewrite Hs, lookup_empty in He. discriminate.
Qed.

Lemma onSubmit_posts v w :
  network (onSubmit v w)
  = network w ++ [{| url := "/admin/login"; body := properties v |}]
  /\ inflight (onSubmit v w) = inflight w ++ [v]
  /\ values (onSubmit v w) = values w.
Proof. repeat split. Qed.

Lemma submit_posts w :
  schema (values w) = ∅ ->
  network (submit w)
  = network w ++ [{| url := "/admin/login"; body := properties (values w) |}]
  /\ inflight (submit w) = inflight w ++ [values w]
  /\ values (submit w) = values w.
Proof. intros H. rewrite (submit_valid w H). repeat split. Qed.

(** C2, amended. Nothing holds a submission back while another one is
    in flight: each submit of values that pass the schema posts one more
    request, so [n] submits in a row leave [n] more requests in
    flight. *)
Theorem C2_every_valid_submit_posts (n : nat) (w : World) :
  schema (values w) = ∅ ->
  let w' := run email_syntax w (replicate n Submit) in
  inflight w' = inflight w ++ replicate n (values w)
  /\ length (network w') = length (network w) + n.
Proof.
  cbn zeta. revert w. induction n as [|n IH]; intros w Hv.
  - cbn. rewrite app_nil_r. split; [reflexivity | lia].
  - cbn [replicate run fold_left step].
    destruct (submit_posts w Hv) as (Hn & Hi & Hval).
    fold (run email_syntax (submit w) (replicate n Submit)).
    destruct (IH (submit w)) as [IHi IHn]; [by rewrite Hval |].
    rewrite IHi, IHn, Hi, Hn, Hval, length_app, <- app_assoc. cbn [length app].
    split; [reflexivity | lia].
Qed.

(** C3, amended. On a valid submission one request is posted, to
    [/admin/login], and its body is the values object as it is: the
    three properties [email], [password] and [rememberMe]. *)
Theorem C3_request_body (w : World) :
  schema (values w) = ∅ ->
  exists req,
    network (step email_syntax w Submit) = network w ++ [req]
    /\ url req = "/admin/login"
    /\ dom (body req) = {[ "email"; "password"; "rememberMe" ]}
    /\ body req !! "email" = Some (JString (email (values w)))
    /\ body req !! "password" = Some (JString (password (values w)))
    /\ body req !! "rememberMe" = Some (JBool (rememberMe (values w))).
Proof.
  intros Hv. destruct (submit_posts w Hv) as (Hn & _).
  eexists. split; [exact Hn |]. cbn [url body]. split; [reflexivity |].
  unfold properties. split; [| by simplify_map_eq].
  rewrite !dom_insert_L, dom_singleton_L. set_solver.
Qed.

End FormFacts.

Lemma C6_validation_gates_submission_witness :
  let v := {| email := "kai"; password := "secret"; rememberMe := false |} in
  LOGIN_SCHEMA sample_email_syntax v !! "email" = Some TE_email
  /\ network (step sample_email_syntax (set_values v (mount [] empty_storage)) Submit)
     = [].
Proof.
  cbn zeta.
  destruct (C6_validation_gates_submission sample_email_syntax
              {| email := "kai"; password := "secret"; rememberMe := false |})
    as (_ & _ & _ & H).
  destruct (H eq_refl) as (_ & He & Hw). split.
  - apply He. discriminate.
  - apply (Hw (set_values _ (mount [] empty_storage))). reflexivity.
Defined.

(** The claim C2 as it is worded fails: the second submit below arrives
    while the first request is in flight, and posts a second one. *)
Lemma C2_second_submit_counterexample :
  let w1 := run sample_email_syntax (mount [] empty_storage)
              [ChangeEmail "kai@doe.com"; ChangePassword "secret"; Submit] in
  let w2 := step sample_email_syntax w1 Submit in
  length (inflight w1) = 1
  /\ length (inflight w2) = 2
  /\ length (network w2) = 2.
Proof. vm_compute. repeat split. Qed.

Lemma C2_every_valid_submit_posts_witness :
  let w := set_values kai (mount [] empty_storage) in
  inflight (run sample_email_syntax w [Submit; Submit; Submit]) = [kai; kai; kai]
  /\ length (network (run sample_email_syntax w [Submit; Submit; Submit])) = 3.
Proof.
  cbn zeta.
  apply (C2_every_valid_submit_posts sample_email_syntax 3
           (set_values kai (mount [] empty_storage))).
  reflexivity.
Defined.

(** The claim C3 as it is worded fails: the request posted for the values
    below carries [rememberMe]. *)
Lemma C3_rememberMe_posted_counterexample :
  map (fun req => body req !! "rememberMe")
      (network (step sample_email_syntax (set_values kai (mount [] empty_storage)) Submit))
  = [Some (JBool true)].
Proof. vm_compute. reflexivity. Qed.

Lemma C3_request_body_witness :
  exists req,
    network (step sample_email_syntax (set_values kai (mount [] empty_storage)) Submit)
    = [req]
    /\ url req = "/admin/login"
    /\ dom (body req) = {[ "email"; "password"; "rememberMe" ]}
    /\ body req !! "email" = Some (JString "kai@doe.com")
    /\ body req !! "password" = Some (JString "secret")
    /\ body req !! "rememberMe" = Some (JBool true).
Proof.
  apply (C3_request_body sample_email_syntax (set_values kai (mount [] empty_storage))).
  reflexivity.
Defined.

(** ** What [camelCase] keeps of a message *)

Lemma append_cons x (a b : string) : (String x a ++ b = String x (a ++ b))%string.
Proof. reflexivity. Qed.

Lemma append_empty_l (a : string) : ("" ++ a = a)%string.
Proof. reflexivity. Qed.

Lemma append_assoc' (a b c : string) : ((a ++ b) ++ c = a ++ (b ++ c))%string.
Proof.
  induction a as [|x a IH]; [reflexivity |]. by rewrite !append_cons, IH.
Qed.

Lemma append_empty_r (a : string) : (a ++ "" = a)%string.
Proof. induction a as [|x a IH]; [reflexivity |]. by rewrite append_cons, IH. Qed.

Lemma snoc_append w c t : (snoc w c ++ t = w ++ String c t)%string.
Proof. unfold snoc. by rewrite append_assoc', append_cons, append_empty_l. Qed.

Lemma lower_char_idem c : lower_char (lower_char c) = lower_char c.
Proof. destruct c as [[] [] [] [] [] [] [] []]; reflexivity. Qed.

Lemma lower_upper_char c : lower_char (upper_char c) = lower_char c.
Proof. destruct c as [[] [] [] [] [] [] [] []]; reflexivity. Qed.

Lemma toLowerCase_idem s : toLowerCase (toLowerCase s) = toLowerCase s.
Proof. induction s as [|c s IH]; simpl; [reflexivity | by rewrite lower_char_idem, IH]. Qed.

Lemma toLowerCase_append a b :
  (toLowerCase (a ++ b) = toLowerCase a ++ toLowerCase b)%string.
Proof.
  induction a as [|c a IH]; [reflexivity |].
  rewrite append_cons. cbn [toLowerCase]. by rewrite append_cons, IH.
Qed.

Lemma toLowerCase_capitalize w : toLowerCase (capitalize w) = toLowerCase w.
Proof.
  unfold capitalize. destruct w as [|c w]; simpl; [reflexivity |].
  by rewrite lower_upper_char, lower_char_idem, toLowerCase_idem.
Qed.

Lemma compound_lower ws : forall index result,
  toLowerCase (snd (fold_left compound ws (index, result)))
  = (toLowerCase result ++ toLowerCase (concat_words ws))%string.
Proof.
  induction ws as [|w ws IH]; intros index result; simpl.
  - by rewrite append_empty_r.
  - rewrite IH, !toLowerCase_append, append_assoc'. f_equal. f_equal.
    destruct index; [apply toLowerCase_idem |].
    by rewrite toLowerCase_capitalize, toLowerCase_idem.
Qed.

Lemma start_pending c rest :
  (pending (start c) ++ word_characters rest)%string = word_characters (String c rest).
Proof. unfold start. simpl. by destruct (classify c). Qed.

Lemma letter_not_break c : is_lower c || is_upper c = true -> classify c <> Break.
Proof.
  unfold classify. destruct (is_upper c); [discriminate |].
  destruct (is_lower c); [discriminate |]. simpl. discriminate.
Qed.

Lemma ordinal_suffix_letters d c1 c2 :
  ordinal_suffix d c1 c2 = true -> classify c1 <> Break /\ classify c2 <> Break.
Proof.
  unfold ordinal_suffix. intros H. apply andb_prop in H as [H _].
  apply orb_prop in H as [H | H]; apply andb_prop in H as [H1 H2];
    split; apply letter_not_break; rewrite ?H1, ?H2; by rewrite ?orb_true_r.
Qed.

Lemma ready_start c rest : ready (start c) rest.
Proof. unfold start. by destruct (classify c). Qed.

Lemma keep c rest :
  classify c <> Break -> word_characters (String c rest) = String c (word_characters rest).
Proof. simpl. by destruct (classify c). Qed.

Lemma scan_concat s : forall r,
  ready r s ->
  concat_words (scan r s) = (pending r ++ word_characters s)%string.
Proof.
  induction s as [|c rest IH]; intros r Hr.
  - destruct r; simpl; by rewrite ?append_empty_r.
  - destruct r as [|w|w|w d|w]; cbn [scan].
    + rewrite IH by apply ready_start. by rewrite start_pending.
    + destruct (classify c) eqn:Hc.
      * destruct (next_is Lower rest).
        -- cbn [concat_words fold_right]. fold (concat_words (scan (start c) rest)).
           rewrite IH by apply ready_start. by rewrite start_pending.
        -- rewrite IH by exact I. cbn [pending]. rewrite snoc_append, keep; [done | by rewrite Hc].
      * rewrite IH by exact I. cbn [pending]. rewrite snoc_append, keep; [done | by rewrite Hc].
      * cbn [concat_words fold_right]. fold (concat_words (scan (start c) rest)).
        rewrite IH by apply ready_start. by rewrite start_pending.
      * cbn [concat_words fold_right]. fold (concat_words (scan (start c) rest)).
        rewrite IH by apply ready_start. by rewrite start_pending.
    + destruct (classify c) eqn:Hc.
      2:{ rewrite IH by exact I. cbn [pending]. rewrite snoc_append, keep; [done | by rewrite Hc]. }
      all: cbn [concat_words fold_right]; fold (concat_words (scan (start c) rest));
        rewrite IH by apply ready_start; by rewrite start_pending.
    + assert (Hother :
        concat_words (if ordinal_ahead d c rest
                      then scan (OrdinalEnd (snoc w c)) rest
                      else w :: scan (start c) rest)
        = (w ++ word_characters (String c rest))%string).
      { destruct (ordinal_ahead d c rest) eqn:Ho.
        - unfold ordinal_ahead in Ho. destruct rest as [|c2 after]; [discriminate |].
          apply andb_prop in Ho as [Ho _]. apply andb_prop in Ho as [Ho _].
          apply ordinal_suffix_letters in Ho as [H1 H2].
          rewrite IH by exact H2. cbn [pending]. rewrite snoc_append.
          by rewrite (keep c _ H1).
        - cbn [concat_words fold_right]. fold (concat_words (scan (start c) rest)).
          rewrite IH by apply ready_start. by rewrite start_pending. }
      destruct (classify c) eqn:Hc; try exact Hother.
      rewrite IH by exact I. cbn [pending]. rewrite snoc_append, keep; [done | by rewrite Hc].
    + cbn [concat_words fold_right]. fold (concat_words (scan NoWord rest)).
      rewrite IH by exact I. cbn [pending append]. rewrite snoc_append.
      by rewrite (keep c _ Hr).
Qed.

Lemma word_characters_apostrophes s :
  word_characters (remove_apostrophes s) = word_characters s.
Proof.
  induction s as [|c s IH]; [reflexivity |]. cbn [remove_apostrophes].
  destruct (Ascii.eqb_spec c "'") as [-> | Hne]; [exact IH |].
  simpl. by rewrite IH.
Qed.

Lemma camelCase_lower s :
  toLowerCase (camelCase s) = toLowerCase (word_characters s).
Proof.
  unfold camelCase, words. rewrite compound_lower. cbn [toLowerCase append].
  rewrite scan_concat by exact I. cbn [pending append].
  by rewrite word_characters_apostrophes.
Qed.

(** ** [decodeURIComponent] *)

Lemma decode_plain s :
  has_percent s = false -> decodeURIComponent s = Some s.
Proof.
  unfold decodeURIComponent. induction s as [|c s IH]; [reflexivity |].
  cbn [has_percent decode]. intros H. apply orb_false_elim in H as [Hc Hs].
  rewrite Hc. cbn [more no_pending]. rewrite (IH Hs). reflexivity.
Qed.

Lemma decode_length s : forall e p t,
  decode e p s = Some t ->
  match e with
  | Outside =>
      String.length t <= String.length s
      /\ (has_percent s = true -> String.length t + 2 <= String.length s)
  | AfterPercent => String.length t + 1 <= String.length s
  | AfterHex _ => String.length t <= String.length s
  end.
Proof.
  induction s as [|c s IH]; intros e p t H.
  - cbn [decode] in H. destruct e; try discriminate.
    destruct (more p); [| discriminate]. injection H as <-. split; [done | discriminate].
  - cbn [decode] in H. destruct e as [| |h].
    + cbn [has_percent String.length]. destruct (Ascii.eqb c "%") eqn:Hc.
      * apply IH in H. cbn beta iota in H. split; [lia | intros _; lia].
      * destruct (more p); [| discriminate].
        destruct (decode Outside p s) as [t'|] eqn:Ht; [| discriminate].
        injection H as <-. apply IH in Ht as [H1 H2]. cbn [String.length orb].
        split; [lia | intros Hp; specialize (H2 Hp); lia].
    + destruct (hex_digit c) as [h|]; [| discriminate].
      apply IH in H. cbn beta iota in H. cbn [String.length]. lia.
    + destruct (hex_digit c) as [l|]; [| discriminate].
      destruct (octet p (16 * h + l)) as [p'|]; [| discriminate].
      destruct (decode Outside p' s) as [t'|] eqn:Ht; [| discriminate].
      injection H as <-. apply IH in Ht as [H1 _]. cbn [String.length]. lia.
Qed.

(** ** What the handlers leave alone *)

Lemma onError_frame err w :
  let w' := world_of (onError err w) in
  values w' = values w /\ formErrors w' = formErrors w
  /\ dispatched w' = dispatched w /\ storage w' = storage w
  /\ query w' = query w /\ network w' = network w /\ inflight w' = inflight w.
Proof. cbn zeta. unfold onError, onError_with. destruct (String.eqb _ _); repeat split. Qed.

Lemma navigate_rest q w :
  let o := (let! target := redirectUrl (query_get q "redirectTo") in push target) w in
  values (world_of o) = values w /\ formErrors (world_of o) = formErrors w
  /\ query (world_of o) = query w /\ network (world_of o) = network w
  /\ inflight (world_of o) = inflight w.
Proof.
  cbn zeta. unfold redirectUrl, decode_or_throw, bind.
  destruct (query_get q "redirectTo") as [r|]; [| repeat split].
  destruct (truthy r); [| repeat split].
  destruct (decodeURIComponent r); repeat split.
Qed.

Lemma onSuccess_frame d w :
  let w' := world_of (onSuccess d w) in
  values w' = values w /\ formErrors w' = formErrors w
  /\ apiError w' = apiError w /\ query w' = query w
  /\ network w' = network w /\ inflight w' = inflight w.
Proof.
  cbn zeta. destruct (Auth.fails 0 (storage w)) eqn:H0.
  - rewrite onSuccess_token_fails by exact H0. repeat split.
  - destruct (Auth.fails 1 (storage w)) eqn:H1.
    + rewrite onSuccess_user_fails by assumption. repeat split.
    + rewrite onSuccess_persisted by assumption.
      destruct (navigate_rest (query w) (established d w)) as (Hv & Hf & Hq & Hn & Hi).
      destruct (navigate_frame (query w) (established d w)) as (_ & _ & Ha).
      cbn zeta in *. rewrite Hv, Hf, Hq, Hn, Hi, Ha. repeat split.
Qed.

Lemma settle_frame b r w :
  let w' := settle b r w in
  values w' = values w /\ formErrors w' = formErrors w /\ query w' = query w
  /\ network w' = network w /\ inflight w' = inflight w.
Proof.
  cbn zeta. destruct r as [d | err].
  - rewrite settle_fulfilled.
    destruct (onSuccess_frame (mutation_result d b) w) as (Hv & Hf & _ & Hq & Hn & Hi).
    cbn zeta in *. destruct (onSuccess (mutation_result d b) w); cbn in *; by repeat split.
  - unfold settle.
    destruct (onError_frame err w) as (Hv & Hf & _ & _ & Hq & Hn & Hi). by repeat split.
Qed.

(** ** Runs of the form *)

Section RunFacts.

Variable email_syntax : string -> bool.

Abbreviation schema' := (LOGIN_SCHEMA email_syntax).
Abbreviation step' := (step email_syntax).
Abbreviation run' := (run email_syntax).

Lemma run_cons w ev evs : run' w (ev :: evs) = run' (step' w ev) evs.
Proof. reflexivity. Qed.

Lemma run_app w evs evs' : run' w (evs ++ evs') = run' (run' w evs) evs'.
Proof. unfold run. apply fold_left_app. Qed.

Lemma step_change w ev :
  is_change ev = true ->
  step' w ev = set_values (handleChange ev (values w)) w.
Proof. destruct ev; try discriminate; reflexivity. Qed.

Lemma schema_keys v : dom (schema' v) ⊆ {[ "email"; "password" ]}.
Proof.
  unfold LOGIN_SCHEMA, report.
  destruct (check_email email_syntax (email v)), (check_password (password v));
    cbn; rewrite ?dom_insert_L, ?dom_empty_L; set_solver.
Qed.

Lemma schema_password v :
  schema' v !! "password" = check_password (password v).
Proof.
  unfold LOGIN_SCHEMA, report.
  destruct (check_email email_syntax (email v)), (check_password (password v));
    by simplify_map_eq.
Qed.

Lemma submit_not_valid w :
  schema' (values w) <> ∅ ->
  step' w Submit = set_formErrors (schema' (values w)) w.
Proof. intros H. cbn [step]. unfold handleSubmit. by rewrite decide_False. Qed.

Lemma submit_is_valid w :
  schema' (values w) = ∅ ->
  step' w Submit = onSubmit (values w) (set_formErrors ∅ w).
Proof. intros H. cbn [step]. unfold handleSubmit. rewrite H. by rewrite decide_True. Qed.

(** Every step appends at most one request, and only a submit of valid
    values appends one. *)
Lemma step_network w ev :
  network (step' w ev) = network w
  \/ (ev = Submit /\ schema' (values w) = ∅
      /\ network (step' w ev)
         = network w ++ [{| url := "/admin/login"; body := properties (values w) |}]).
Proof.
  destruct ev as [s|s|c| |i r]; try (left; reflexivity).
  - destruct (decide (schema' (values w) = ∅)) as [Hv | Hv].
    + right. rewrite submit_is_valid by exact Hv. repeat split. exact Hv.
    + left. rewrite submit_not_valid by exact Hv. reflexivity.
  - left. cbn [step]. destruct (inflight w !! i) as [b|]; [| reflexivity].
    by destruct (settle_frame b r (set_inflight (delete i (inflight w)) w))
      as (_ & _ & _ & Hn & _).
Qed.

(** X9. The network log only grows, by at most one request per submit
    event, and every request added goes to [/admin/login] with the
    properties of values that passed the schema. *)
Theorem X9_only_validated_logins_are_posted (evs : list Event) (w : World) :
  exists more,
    network (run' w evs) = network w ++ more
    /\ length more <= submits evs
    /\ Forall (fun r => url r = "/admin/login"
                        /\ exists v, schema' v = ∅ /\ body r = properties v) more.
Proof.
  revert w. induction evs as [|ev evs IH]; intros w.
  - exists []. cbn. rewrite app_nil_r. repeat split; [lia | constructor].
  - rewrite run_cons. destruct (IH (step' w ev)) as (more & Hn & Hl & Hf).
    destruct (step_network w ev) as [Hs | (-> & Hv & Hs)].
    + exists more. rewrite Hn, Hs. split; [reflexivity |]. split; [| exact Hf].
      unfold submits in *. cbn [List.filter]. destruct (is_submit ev); cbn [length]; lia.
    + exists ({| url := "/admin/login"; body := properties (values w) |} :: more).
      rewrite Hn, Hs, <- app_assoc. split; [reflexivity |]. split.
      * unfold submits in *. cbn [List.filter is_submit length]. lia.
      * constructor; [| exact Hf]. split; [reflexivity |]. by exists (values w).
Qed.

(** Neither an edit nor a submit writes anything but the form and the
    network log. *)
Lemma step_quiet w ev :
  is_change ev || is_submit ev = true ->
  storage (step' w ev) = storage w /\ dispatched (step' w ev) = dispatched w
  /\ history (step' w ev) = history w /\ apiError (step' w ev) = apiError w.
Proof.
  intros H. destruct ev as [s|s|c| |i r]; try discriminate; try by repeat split.
  cbn [step]. unfold handleSubmit. by destruct (decide _).
Qed.

(** X10. Editing and submitting write nothing outside the form and the
    network log: over any run of edits and submits the storage is not
    written, no action is dispatched, no path is pushed and the error
    string is not set.  Those happen only in the handlers of a
    response. *)
Theorem X10_edits_and_submits_write_nothing (evs : list Event) (w : World) :
  forallb (fun ev => is_change ev || is_submit ev) evs = true ->
  storage (run' w evs) = storage w /\ dispatched (run' w evs) = dispatched w
  /\ history (run' w evs) = history w /\ apiError (run' w evs) = apiError w.
Proof.
  revert w. induction evs as [|ev evs IH]; intros w H; [by repeat split |].
  cbn [forallb] in H. apply andb_prop in H as [Hev Hevs].
  rewrite run_cons. destruct (IH (step' w ev) Hevs) as (Hs & Hd & Hh & Ha).
  destruct (step_quiet w ev Hev) as (Hs' & Hd' & Hh' & Ha').
  by rewrite Hs, Hd, Hh, Ha, Hs', Hd', Hh', Ha'.
Qed.

Lemma step_apiError w ev :
  is_Some (apiError w) -> is_Some (apiError (step' w ev)).
Proof.
  intros H. destruct ev as [s|s|c| |i r]; try exact H.
  - cbn [step]. unfold handleSubmit. by destruct (decide _).
  - cbn [step]. destruct (inflight w !! i) as [b|]; [| exact H].
    set (w0 := set_inflight (delete i (inflight w)) w).
    assert (H0 : is_Some (apiError w0)) by exact H.
    destruct r as [d | err].
    + rewrite settle_fulfilled.
      destruct (onSuccess_frame (mutation_result d b) w0) as (_ & _ & Ha & _).
      cbn zeta in Ha.
      destruct (onSuccess (mutation_result d b) w0); cbn in *; [by rewrite Ha | eauto].
    + unfold settle, onError, onError_with. destruct (String.eqb _ _); cbn; eauto.
Qed.

(** X11. The component never clears [apiError]: once a failure has set
    it, it stays set through every later event. *)
Theorem X11_apiError_is_never_cleared (evs : list Event) (w : World) :
  is_Some (apiError w) -> is_Some (apiError (run' w evs)).
Proof.
  revert w. induction evs as [|ev evs IH]; intros w H; [exact H |].
  rewrite run_cons. apply IH, step_apiError, H.
Qed.

Lemma run_changes (evs : list Event) (w : World) :
  forallb is_change evs = true ->
  run' w evs
  = set_values (fold_left (fun v ev => handleChange ev v) evs (values w)) w.
Proof.
  revert w. induction evs as [|ev evs IH]; intros w H.
  - cbn. by destruct w.
  - cbn [forallb] in H. apply andb_prop in H as [Hev Hevs].
    rewrite run_cons, (IH _ Hevs), (step_change w ev Hev). reflexivity.
Qed.

(** X7. Editing the fields only changes the values: no validation runs,
    nothing is posted, and the errors of the last submit stay as they
    were. *)
Theorem X7_changes_only_touch_values (evs : list Event) (w : World) :
  forallb is_change evs = true ->
  let w' := run' w evs in
  values w' = fold_left (fun v ev => handleChange ev v) evs (values w)
  /\ formErrors w' = formErrors w /\ network w' = network w
  /\ inflight w' = inflight w /\ apiError w' = apiError w
  /\ history w' = history w /\ dispatched w' = dispatched w
  /\ storage w' = storage w.
Proof. intros H. cbn zeta. rewrite (run_changes evs w H). by repeat split. Qed.

Lemma default_last_cons {A} (a x : A) (l : list A) :
  default a (last (x :: l)) = default x (last l).
Proof. rewrite last_cons. by destruct (last l). Qed.

Lemma edits_fold (evs : list Event) : forall v,
  let v' := fold_left (fun v ev => handleChange ev v) evs v in
  email v' = default (email v) (last (omap email_edit evs))
  /\ password v' = default (password v) (last (omap password_edit evs))
  /\ rememberMe v' = default (rememberMe v) (last (omap rememberMe_edit evs)).
Proof.
  induction evs as [|ev evs IH]; intros v; [by repeat split |].
  cbn zeta. cbn [fold_left].
  destruct (IH (handleChange ev v)) as (He & Hp & Hr). cbn zeta in He, Hp, Hr.
  rewrite He, Hp, Hr.
  destruct ev as [s|s|c| |i r]; cbn; by rewrite ?default_last_cons.
Qed.

(** X8. After any run of edits each of the three fields holds the value
    of its last edit, or its former value when no edit was made to it:
    edits of different fields do not interfere, and of several edits of
    one field the last one stands. *)
Theorem X8_last_edit_stands (evs : list Event) (w : World) :
  forallb is_change evs = true ->
  let v := values (run' w evs) in
  email v = default (email (values w)) (last (omap email_edit evs))
  /\ password v = default (password (values w)) (last (omap password_edit evs))
  /\ rememberMe v
     = default (rememberMe (values w)) (last (omap rememberMe_edit evs)).
Proof.
  intros H. cbn zeta. rewrite (run_changes evs w H). cbn [values set_values].
  apply edits_fold.
Qed.

(** X5. An empty password is reported as required under the key
    [password], whatever the email is, and submitting such a draft posts
    nothing. *)
Theorem X5_password_is_required (v : Values) :
  password v = "" ->
  schema' v !! "password" = Some TE_required
  /\ forall w, values w = v ->
       network (step' w Submit) = network w
       /\ inflight (step' w Submit) = inflight w.
Proof.
  intros Hp.
  assert (He : schema' v !! "password" = Some TE_required).
  { rewrite schema_password, Hp. reflexivity. }
  split; [exact He |]. intros w Hw.
  rewrite submit_not_valid; [by split |].
  rewrite Hw. intros Hs. rewrite Hs, lookup_empty in He. discriminate.
Qed.

(** X6. A submit of values the schema rejects changes the form errors and
    nothing else; the errors it leaves are those of the schema, keyed by
    [email] or [password] only, and an empty email is reported as
    required, not as malformed. *)
Theorem X6_rejected_submit_only_reports (w : World) :
  schema' (values w) <> ∅ ->
  let w' := step' w Submit in
  w' = set_formErrors (schema' (values w)) w
  /\ dom (formErrors w') ⊆ {[ "email"; "password" ]}
  /\ (email (values w) = "" -> formErrors w' !! "email" = Some TE_required).
Proof.
  intros H. cbn zeta. rewrite submit_not_valid by exact H.
  split; [reflexivity |]. split; [apply schema_keys |].
  intros He. cbn [formErrors set_formErrors].
  unfold LOGIN_SCHEMA, check_email. rewrite He. cbn. apply lookup_insert_eq.
Qed.

Lemma changes_keep w evs :
  forallb is_change evs = true ->
  inflight (run' w evs) = inflight w /\ storage (run' w evs) = storage w
  /\ query (run' w evs) = query w.
Proof. intros H. rewrite (run_changes evs w H). by repeat split. Qed.

(** X16. The tier is chosen by the [rememberMe] that was submitted: edits
    made while the request is in flight, the checkbox included, do not
    move the session to the other tier. *)
Theorem X16_tier_follows_submitted_flag
    (w : World) (edits : list Event) (d : LoginData) :
  schema' (values w) = ∅ ->
  forallb is_change edits = true ->
  Auth.fails 0 (storage w) = false ->
  Auth.fails 1 (storage w) = false ->
  let w1 := run' (step' w Submit) edits in
  let w2 := step' w1 (Settle (length (inflight w)) (Fulfilled d)) in
  Auth.tier (Auth.durability (rememberMe (values w))) (storage w2)
  = {| Auth.stored_token := Some (token d); Auth.stored_user := Some (user d) |}
  /\ inflight w2 = inflight w.
Proof.
  intros Hv He H0 H1. cbn zeta.
  destruct (changes_keep (step' w Submit) edits He) as (Hi & Hs & _).
  rewrite (submit_is_valid w Hv) in Hi, Hs. cbn in Hi, Hs.
  rewrite <- (submit_is_valid w Hv) in Hi, Hs.
  set (w1 := run' (step' w Submit) edits) in *.
  cbn [step]. rewrite Hi, list_lookup_middle by reflexivity.
  rewrite delete_middle, app_nil_r.
  set (w0 := set_inflight (inflight w) w1).
  assert (Hs0 : storage w0 = storage w) by exact Hs.
  destruct (settle_frame (values w) (Fulfilled d) w0) as (_ & _ & _ & _ & Hi0).
  split; [| exact Hi0].
  rewrite settle_storage, onSuccess_storage by (rewrite Hs0; assumption).
  apply (both_written_tier (mutation_result d (values w))).
Qed.

End RunFacts.

Lemma X5_password_is_required_witness :
  let v := {| email := "kai@doe.com"; password := ""; rememberMe := false |} in
  LOGIN_SCHEMA sample_email_syntax v !! "password" = Some TE_required
  /\ network (step sample_email_syntax (set_values v (mount [] empty_storage)) Submit)
     = [].
Proof.
  cbn zeta.
  destruct (X5_password_is_required sample_email_syntax
              {| email := "kai@doe.com"; password := ""; rememberMe := false |}
              eq_refl) as [Hp Hw].
  split; [exact Hp |].
  apply (Hw (set_values _ (mount [] empty_storage))). reflexivity.
Defined.

Lemma X6_rejected_submit_only_reports_witness :
  formErrors (step sample_email_syntax (mount [] empty_storage) Submit) !! "email"
  = Some TE_required
  /\ network (step sample_email_syntax (mount [] empty_storage) Submit) = [].
Proof.
  destruct (X6_rejected_submit_only_reports sample_email_syntax
              (mount [] empty_storage)) as (Hw & _ & He).
  - vm_compute. discriminate.
  - split; [apply He; reflexivity |]. cbn zeta in Hw. rewrite Hw. reflexivity.
Defined.

Lemma X7_changes_only_touch_values_witness :
  let w := step sample_email_syntax (mount [] empty_storage) Submit in
  let w' := run sample_email_syntax w [ChangeEmail "kai@doe.com"; ChangePassword "secret"] in
  email (values w') = "kai@doe.com"
  /\ formErrors w' = formErrors w
  /\ network w' = [].
Proof.
  cbn zeta.
  destruct (X7_changes_only_touch_values sample_email_syntax
              [ChangeEmail "kai@doe.com"; ChangePassword "secret"]
              (step sample_email_syntax (mount [] empty_storage) Submit) eq_refl)
    as (Hv & Hf & Hn & _).
  cbn zeta in *. split; [by rewrite Hv |]. split; [exact Hf |]. by rewrite Hn.
Defined.

Lemma X8_last_edit_stands_witness :
  values (run sample_email_syntax (mount [] empty_storage)
            [ChangeEmail "k"; ChangeRememberMe true; ChangeEmail "kai@doe.com";
             ChangePassword "secret"; ChangeRememberMe false; ChangeRememberMe true])
  = kai.
Proof.
  destruct (X8_last_edit_stands sample_email_syntax
              [ChangeEmail "k"; ChangeRememberMe true; ChangeEmail "kai@doe.com";
               ChangePassword "secret"; ChangeRememberMe false; ChangeRememberMe true]
              (mount [] empty_storage) eq_refl) as (He & Hp & Hr).
  cbn zeta in He, Hp, Hr. unfold kai.
  destruct (values _) as [e p r]. cbn in He, Hp, Hr. by rewrite He, Hp, Hr.
Defined.

Lemma X10_edits_and_submits_write_nothing_witness :
  let w := set_values kai (mount [] empty_storage) in
  let w' := run sample_email_syntax w [Submit; ChangePassword "other"; Submit] in
  storage w' = empty_storage /\ dispatched w' = [] /\ history w' = []
  /\ apiError w' = None.
Proof.
  cbn zeta.
  apply (X10_edits_and_submits_write_nothing sample_email_syntax
           [Submit; ChangePassword "other"; Submit]
           (set_values kai (mount [] empty_storage))).
  reflexivity.
Defined.

Lemma X11_apiError_is_never_cleared_witness :
  let w := settle kai (Rejected credentials_error)
             (set_values kai (mount [] empty_storage)) in
  is_Some (apiError (run sample_email_syntax w
                       [Submit; Settle 0 (Fulfilled kai_fr); ChangeEmail ""])).
Proof.
  cbn zeta.
  apply (X11_apiError_is_never_cleared sample_email_syntax
           [Submit; Settle 0 (Fulfilled kai_fr); ChangeEmail ""]
           (settle kai (Rejected credentials_error)
              (set_values kai (mount [] empty_storage)))).
  eexists. reflexivity.
Defined.

Lemma X16_tier_follows_submitted_flag_witness :
  let w := set_values kai (mount [] empty_storage) in
  let w1 := run sample_email_syntax (step sample_email_syntax w Submit)
              [ChangeRememberMe false] in
  let w2 := step sample_email_syntax w1 (Settle 0 (Fulfilled kai_fr)) in
  rememberMe (values w1) = false
  /\ Auth.long_lived (storage w2)
     = {| Auth.stored_token := Some "jwt"; Auth.stored_user := Some (user kai_fr) |}
  /\ inflight w2 = [].
Proof.
  cbn zeta. split; [reflexivity |].
  apply (X16_tier_follows_submitted_flag sample_email_syntax
           (set_values kai (mount [] empty_storage)) [ChangeRememberMe false] kai_fr);
    reflexivity.
Defined.

(** ** More on failures *)

(** X1. Which failures count as an inactive account, for a message in
    ASCII: those whose message, once everything but its letters and
    digits is dropped and the rest is lower-cased, reads
    [usernotactive].  Case, spaces and punctuation of the message play
    no part. *)
Theorem X1_inactive_by_letters_and_digits (err : AxiosError) (w : World) :
  ascii_text (error_message err) = true ->
  let msg := error_message err in
  let w' := world_of (onError err w) in
  toLowerCase (camelCase msg) = toLowerCase (word_characters msg)
  /\ (toLowerCase (word_characters msg) = "usernotactive" ->
        history w' = history w ++ ["/auth/oops"] /\ apiError w' = apiError w)
  /\ (toLowerCase (word_characters msg) <> "usernotactive" ->
        apiError w' = Some msg /\ history w' = history w).
Proof.
  intros _. cbn zeta. split; [apply camelCase_lower |].
  rewrite <- camelCase_lower. split; intros H.
  - by rewrite (onError_inactive _ _ H).
  - by rewrite (onError_generic _ _ H).
Qed.

Lemma X1_inactive_by_letters_and_digits_witness :
  history (world_of (onError spaced_inactive_error (mount [] empty_storage)))
  = ["/auth/oops"]
  /\ apiError (world_of (onError credentials_error (mount [] empty_storage)))
     = Some "Invalid credentials".
Proof.
  split.
  - apply (X1_inactive_by_letters_and_digits spaced_inactive_error
             (mount [] empty_storage) eq_refl). reflexivity.
  - apply (X1_inactive_by_letters_and_digits credentials_error
             (mount [] empty_storage) eq_refl). discriminate.
Defined.

(** X2. [onError] itself never touches the session or the form: it ends
    without throwing, the storage, the dispatched actions, the network
    log, the values and the form errors are as before, and at most the
    one path [/auth/oops] is pushed.  This holds whatever the two library
    calls of its test compute. *)
Theorem X2_onError_leaves_session_alone
    (camel lower : string -> string) (err : AxiosError) (w : World) :
  let o := onError_with camel lower err w in
  threw o = None
  /\ storage (world_of o) = storage w /\ dispatched (world_of o) = dispatched w
  /\ network (world_of o) = network w /\ inflight (world_of o) = inflight w
  /\ values (world_of o) = values w /\ formErrors (world_of o) = formErrors w
  /\ (history (world_of o) = history w
      \/ history (world_of o) = history w ++ ["/auth/oops"]).
Proof.
  cbn zeta. unfold onError_with.
  destruct (String.eqb _ _); cbn; repeat split; auto.
Qed.

(** X3. A failure whose message is the empty string is not given the
    fallback text: [apiError] becomes the empty string, which renders no
    alert whatever the state of the mutation. *)
Theorem X3_empty_message_renders_no_alert
    (b : Values) (err : AxiosError) (w : World) (isError : bool) :
  response_message err = Some "" ->
  let w' := settle b (Rejected err) w in
  apiError w' = Some ""
  /\ history w' = history w
  /\ global_form_error isError w' = None.
Proof.
  intros H. cbn zeta. unfold settle, onError, onError_with, error_message. rewrite H. cbn.
  repeat split. unfold global_form_error. cbn. by rewrite andb_false_r.
Qed.

Lemma X3_empty_message_renders_no_alert_witness :
  apiError (settle kai (Rejected empty_message_error) (mount [] empty_storage)) = Some ""
  /\ history (settle kai (Rejected empty_message_error) (mount [] empty_storage)) = []
  /\ global_form_error true
       (settle kai (Rejected empty_message_error) (mount [] empty_storage)) = None.
Proof.
  apply (X3_empty_message_renders_no_alert kai empty_message_error
           (mount [] empty_storage) true).
  reflexivity.
Defined.

(** X4. After a failure whose message is not empty and does not pass the
    test for the sentinel, the alert of a mutation in error shows the
    message as it came; a mutation that is not in error shows no alert.
    This holds whatever the two library calls of the test compute. *)
Theorem X4_alert_shows_message
    (camel lower : string -> string) (err : AxiosError) (w : World) :
  lower (camel (error_message err)) <> sentinel ->
  error_message err <> "" ->
  let w' := world_of (onError_with camel lower err w) in
  global_form_error true w' = Some (error_message err)
  /\ global_form_error false w' = None.
Proof.
  intros H Hne. cbn zeta. unfold onError_with.
  destruct (String.eqb_spec (lower (camel (error_message err))) sentinel);
    [contradiction |].
  unfold global_form_error. cbn.
  destruct (error_message err); [contradiction | by split].
Qed.

Lemma X4_alert_shows_message_witness :
  global_form_error true
    (world_of (onError credentials_error (mount [] empty_storage)))
  = Some "Invalid credentials"
  /\ global_form_error false
       (world_of (onError credentials_error (mount [] empty_storage))) = None.
Proof.
  apply (X4_alert_shows_message camelCase toLowerCase credentials_error
           (mount [] empty_storage));
    discriminate.
Defined.

(** ** More on successes *)

(** X18. [onSuccess] never sets the error string and never touches the
    form or the network, whether it ends or throws. *)
Theorem X18_success_leaves_form_alone (d : AuthSession) (w : World) :
  let w' := world_of (onSuccess d w) in
  apiError w' = apiError w /\ values w' = values w
  /\ formErrors w' = formErrors w /\ network w' = network w
  /\ inflight w' = inflight w.
Proof.
  destruct (onSuccess_frame d w) as (Hv & Hf & Ha & _ & Hn & Hi). by repeat split.
Qed.

(** X12. When the token write fails [onSuccess] throws there: the locale
    action is already dispatched, and neither tier is written, nothing is
    pushed. *)
Theorem X12_failed_token_write (d : AuthSession) (w : World) :
  Auth.fails 0 (storage w) = true ->
  let o := onSuccess d w in
  threw o = Some StorageError
  /\ dispatched (world_of o) = dispatched w ++ locale_actions (session_user d)
  /\ history (world_of o) = history w
  /\ Auth.long_lived (storage (world_of o)) = Auth.long_lived (storage w)
  /\ Auth.session_scoped (storage (world_of o)) = Auth.session_scoped (storage w).
Proof.
  intros H. cbn zeta. rewrite onSuccess_token_fails by exact H. by repeat split.
Qed.

Lemma X12_failed_token_write_witness :
  let o := onSuccess (mutation_result kai_fr kai) (mount [] first_write_fails) in
  threw o = Some StorageError
  /\ dispatched (world_of o) = [setLocale "fr"]
  /\ history (world_of o) = []
  /\ Auth.long_lived (storage (world_of o)) = Auth.empty_tier
  /\ Auth.session_scoped (storage (world_of o)) = Auth.empty_tier.
Proof.
  apply (X12_failed_token_write (mutation_result kai_fr kai)
           (mount [] first_write_fails)).
  reflexivity.
Defined.

(** X13. The redirect is resolved after the session is stored: with a
    [redirectTo] that does not decode, the token and the user are in
    their tier all the same, and the locale action is dispatched. *)
Theorem X13_session_stored_before_redirect
    (b : Values) (d : LoginData) (w : World) (r : string) :
  Auth.fails 0 (storage w) = false ->
  Auth.fails 1 (storage w) = false ->
  query_get (query w) "redirectTo" = Some r ->
  r <> "" ->
  decodeURIComponent r = None ->
  let w' := settle b (Fulfilled d) w in
  Auth.tier (Auth.durability (rememberMe b)) (storage w')
  = {| Auth.stored_token := Some (token d); Auth.stored_user := Some (user d) |}
  /\ dispatched w' = dispatched w ++ locale_actions (user d)
  /\ history w' = history w.
Proof.
  intros H0 H1 Hq Hr Hd. cbn zeta.
  rewrite settle_storage, onSuccess_storage, settle_dispatched by assumption.
  split; [apply (both_written_tier (mutation_result d b)) |]. split; [reflexivity |].
  rewrite settle_history, onSuccess_persisted by assumption.
  by rewrite (navigate_malformed _ _ r).
Qed.

Lemma X13_session_stored_before_redirect_witness :
  let w' := settle kai (Fulfilled kai_fr) (mount [("redirectTo", "%")] empty_storage) in
  Auth.tier Auth.LongLived (storage w')
  = {| Auth.stored_token := Some "jwt"; Auth.stored_user := Some (user kai_fr) |}
  /\ dispatched w' = [setLocale "fr"]
  /\ history w' = [].
Proof.
  apply (X13_session_stored_before_redirect kai kai_fr
           (mount [("redirectTo", "%")] empty_storage) "%");
    [reflexivity | reflexivity | reflexivity | discriminate | reflexivity].
Defined.

(** X14. A [redirectTo] without a percent sign is pushed as it is: the
    target is not checked against anything before the navigation. *)
Theorem X14_plain_redirect_is_pushed_as_is
    (b : Values) (d : LoginData) (w : World) (r : string) :
  Auth.fails 0 (storage w) = false ->
  Auth.fails 1 (storage w) = false ->
  query_get (query w) "redirectTo" = Some r ->
  r <> "" ->
  has_percent r = false ->
  history (settle b (Fulfilled d) w) = history w ++ [r].
Proof.
  intros H0 H1 Hq Hr Hp.
  rewrite settle_history, onSuccess_persisted by assumption.
  by rewrite (navigate_decoded _ _ r r Hq Hr (decode_plain r Hp)).
Qed.

Lemma X14_plain_redirect_is_pushed_as_is_witness :
  history (settle kai (Fulfilled kai_fr)
             (mount [("redirectTo", "//example.org/x")] empty_storage))
  = ["//example.org/x"].
Proof.
  apply (X14_plain_redirect_is_pushed_as_is kai kai_fr
           (mount [("redirectTo", "//example.org/x")] empty_storage)
           "//example.org/x");
    [reflexivity | reflexivity | reflexivity | discriminate | reflexivity].
Defined.

(** X15. Decoding leaves a text as it is exactly when the text has no
    percent sign, and never makes it longer. *)
Theorem X15_decoding_changes_only_escapes (s : string) :
  (decodeURIComponent s = Some s <-> has_percent s = false)
  /\ (forall t, decodeURIComponent s = Some t -> String.length t <= String.length s).
Proof.
  split; [| intros t H; by apply decode_length in H as [H _]].
  split; [| apply decode_plain].
  intros H. destruct (has_percent s) eqn:Hp; [| reflexivity].
  apply decode_length in H as [_ H]. specialize (H Hp). lia.
Qed.

(** ** The password field *)

Lemma clicks_odd n : clicks n = Nat.odd n.
Proof.
  induction n as [|n IH]; [reflexivity |].
  change (clicks (S n)) with (negb (clicks n)).
  by rewrite IH, Nat.odd_succ, Nat.negb_odd.
Qed.

(** X17. The password starts hidden and each click on the field action
    flips it: after [n] clicks the input is of type [text] exactly when
    [n] is odd, and the label and the icon of the action switch with
    it. *)
Theorem X17_password_toggle (n : nat) :
  password_type (clicks n) = (if Nat.odd n then "text" else "password")
  /\ password_action_label (clicks n)
     = (if Nat.odd n then "Auth.form.password.show-password"
        else "Auth.form.password.hide-password")
  /\ password_action_icon (clicks n) = (if Nat.odd n then Eye else EyeStriked)
  /\ clicks (n + 2) = clicks n.
Proof.
  rewrite !clicks_odd. repeat split.
  replace (n + 2) with (S (S n)) by lia.
  by rewrite !Nat.odd_succ, Nat.even_succ.
Qed.
